(** * Advanced Contact Finder Pro: the contact-extraction core of [app.py]

    A shallow embedding of the pure functions of [src/app.py]
    ([EnhancedWebScraper.is_valid_email],
    [EnhancedWebScraper.extract_contacts_from_text], [categorize_emails],
    [parse_markdown_table]) and of the result bookkeeping of [main]
    ([all_emails], [all_phones], [method_results], [export_data]).

    Text is a [string]: a sequence of code points U+0000..U+00FF.  The
    character tables below ([\s], [\d], [\w], [str.lower]) are Python 3's
    tables restricted to that range. *)

From Stdlib Require Import Ascii String NArith List Bool Lia.
From stdpp Require Import gmap strings.

Local Open Scope bool_scope.

(** ** Characters *)

Module Chars.

Definition code (c : ascii) : N := N_of_ascii c.

Definition between (lo hi : N) (c : ascii) : bool :=
  (lo <=? code c)%N && (code c <=? hi)%N.

Definition one (x : ascii) (c : ascii) : bool := Ascii.eqb c x.

(** [[0-9]], and [\d] on this range. *)
Definition digit : ascii -> bool := between 48 57.
Definition upper : ascii -> bool := between 65 90.
Definition lower : ascii -> bool := between 97 122.
Definition alpha (c : ascii) : bool := upper c || lower c.

(** [\s] of a [str] pattern, which is also what [str.strip()] removes. *)
Definition space (c : ascii) : bool :=
  between 9 13 c || between 28 32 c || one "133" c || one "160" c.

(** [\w] of a [str] pattern: [str.isalnum] or underscore. *)
Definition word (c : ascii) : bool :=
  digit c || alpha c || one "_" c
  || one "170" c || one "178" c || one "179" c || one "181" c || one "185" c
  || one "186" c || between 188 190 c
  || between 192 214 c || between 216 246 c || between 248 255 c.

(** One character of [str.lower()]. *)
Definition to_lower (c : ascii) : ascii :=
  if upper c || (between 192 222 c && negb (one "215" c))
  then ascii_of_N (code c + 32) else c.

(** A class [p] under [re.IGNORECASE]: the subject character is lowered
    before it is looked up. Every class of [app.py] holds the lower case of
    each of its members, so the class itself needs no lowering. *)
Definition icase (p : ascii -> bool) (c : ascii) : bool := p (to_lower c).

(** One character of [str.upper()], for the characters whose upper case
    is one character of this range. *)
Definition to_upper (c : ascii) : ascii :=
  if lower c || (between 224 254 c && negb (one "247" c))
  then ascii_of_N (code c - 32) else c.

End Chars.

(** ** Strings: the [str] methods used by [app.py] *)

Module Str.

Fixpoint map (f : ascii -> ascii) (s : string) : string :=
  match s with
  | EmptyString => EmptyString
  | String c s' => String (f c) (map f s')
  end.

Fixpoint filter (p : ascii -> bool) (s : string) : string :=
  match s with
  | EmptyString => EmptyString
  | String c s' => if p c then String c (filter p s') else filter p s'
  end.

Fixpoint contains_char (x : ascii) (s : string) : bool :=
  match s with
  | EmptyString => false
  | String c s' => Ascii.eqb c x || contains_char x s'
  end.

Fixpoint take (n : nat) (s : string) : string :=
  match n, s with
  | S n', String c s' => String c (take n' s')
  | _, _ => EmptyString
  end.

(** [s.count(ch)] *)
Fixpoint count (x : ascii) (s : string) : nat :=
  match s with
  | EmptyString => 0
  | String c s' => (if Ascii.eqb c x then 1 else 0) + count x s'
  end.

(** [s.lower()] *)
Definition lower (s : string) : string := map Chars.to_lower s.

(** [sub in s] for a non-empty or empty literal [sub]. *)
Fixpoint contains (sub s : string) : bool :=
  String.prefix sub s
  || match s with
     | EmptyString => false
     | String _ s' => contains sub s'
     end.

(** [s.split(sep)] for a one-character separator: never empty. *)
Fixpoint split (sep : ascii) (s : string) : list string :=
  match s with
  | EmptyString => [EmptyString]
  | String c s' =>
      if Ascii.eqb c sep then EmptyString :: split sep s'
      else match split sep s' with
           | [] => [String c EmptyString]
           | x :: xs => String c x :: xs
           end
  end.

Fixpoint lstrip (s : string) : string :=
  match s with
  | String c s' => if Chars.space c then lstrip s' else s
  | EmptyString => EmptyString
  end.

Fixpoint rstrip (s : string) : string :=
  match s with
  | EmptyString => EmptyString
  | String c s' =>
      match rstrip s' with
      | EmptyString => if Chars.space c then EmptyString else String c EmptyString
      | r => String c r
      end
  end.

(** [s.strip()] *)
Definition strip (s : string) : string := rstrip (lstrip s).

(** Truth value of a [str]: non-empty. *)
Definition truthy (s : string) : bool :=
  match s with EmptyString => false | _ => true end.

(** [sep.join(l)] *)
Fixpoint join (sep : string) (l : list string) : string :=
  match l with
  | [] => EmptyString
  | [x] => x
  | x :: xs => x +:+ sep +:+ join sep xs
  end.

(** [s.upper()], for the characters of [Chars.to_upper]. *)
Definition upper (s : string) : string := map Chars.to_upper s.

(** [s[n:]] *)
Fixpoint drop (n : nat) (s : string) : string :=
  match n, s with
  | S n', String _ s' => drop n' s'
  | _, _ => s
  end.

(** [s.startswith(prefix)] *)
Definition starts_with (prefix s : string) : bool := String.prefix prefix s.

End Str.

(** ** A backtracking matcher for the patterns of [app.py]

    The constructs are those the patterns use: a character class, sequence,
    ordered alternation, a greedy optional group, a greedy repetition of a
    character class with bounds, a capturing group and [\b].  The matcher
    explores the alternatives in the order of Python's [re] (left branch
    first, longest repetition first) and stops at the first success. *)

Module Re.

Inductive regex : Type :=
| Eps
| Chr (p : ascii -> bool)
| Seq (r1 r2 : regex)
| Alt (r1 r2 : regex)
| Opt (r : regex)
| Rep (p : ascii -> bool) (lo : nat) (hi : option nat)
| Grp (r : regex)
| Bnd.

(** The position of a match attempt: the character before it (for [\b]),
    the text still to read and the groups closed so far. *)
Record pos : Type := Pos {
  before : option ascii;
  rest : string;
  groups : list string
}.

Definition may_take (hi : option nat) : bool :=
  match hi with Some 0 => false | _ => true end.

Definition one_less (hi : option nat) : option nat :=
  match hi with Some n => Some (pred n) | None => None end.

Section Matcher.
Context {R : Type}.

(** Greedy [p{lo,hi}]: read one more character if allowed and retry with
    fewer only when the continuation fails. *)
Fixpoint rep (p : ascii -> bool) (lo : nat) (hi : option nat)
    (b : option ascii) (s : string) (g : list string)
    (k : pos -> option R) : option R :=
  let stop := if Nat.eqb lo 0 then k (Pos b s g) else None in
  match s with
  | String c s' =>
      if p c && may_take hi then
        match rep p (pred lo) (one_less hi) (Some c) s' g k with
        | Some r => Some r
        | None => stop
        end
      else stop
  | EmptyString => stop
  end.

Definition is_word (o : option ascii) : bool :=
  match o with Some c => Chars.word c | None => false end.

Definition next_char (s : string) : option ascii :=
  match s with String c _ => Some c | EmptyString => None end.

Fixpoint run (r : regex) (st : pos) (k : pos -> option R) : option R :=
  match r with
  | Eps => k st
  | Chr p =>
      match rest st with
      | String c s' => if p c then k (Pos (Some c) s' (groups st)) else None
      | EmptyString => None
      end
  | Seq r1 r2 => run r1 st (fun st' => run r2 st' k)
  | Alt r1 r2 =>
      match run r1 st k with
      | Some x => Some x
      | None => run r2 st k
      end
  | Opt r1 =>
      match run r1 st k with
      | Some x => Some x
      | None => k st
      end
  | Rep p lo hi => rep p lo hi (before st) (rest st) (groups st) k
  | Grp r1 =>
      run r1 st (fun st' =>
        let n := String.length (rest st) - String.length (rest st') in
        k (Pos (before st') (rest st')
               (groups st' ++ [Str.take n (rest st)])))
  | Bnd =>
      if xorb (is_word (before st)) (is_word (next_char (rest st)))
      then k st else None
  end.
End Matcher.

(** One match attempt at a position: the position after the match. *)
Definition match_at (r : regex) (b : option ascii) (s : string) : option pos :=
  run r (Pos b s []) Some.

(** A match found by a scan: its text and its groups. *)
Record found : Type := Found { whole : string; captured : list string }.

(** The left-to-right scan of [finditer]: [skip] characters of the last
    match are still to be passed over. *)
Fixpoint scan (r : regex) (skip : nat) (b : option ascii) (s : string)
    : list found :=
  match skip with
  | S n =>
      match s with
      | String c s' => scan r n (Some c) s'
      | EmptyString => []
      end
  | 0 =>
      match match_at r b s with
      | Some st =>
          let n := String.length s - String.length (rest st) in
          Found (Str.take n s) (groups st) ::
          match s with
          | String c s' => scan r (pred n) (Some c) s'
          | EmptyString => []
          end
      | None =>
          match s with
          | String c s' => scan r 0 (Some c) s'
          | EmptyString => []
          end
      end
  end.

(** [pattern.findall(text)] for a pattern without groups. *)
Definition findall (r : regex) (text : string) : list string :=
  List.map whole (scan r 0 None text).

(** [re.findall(pattern, text)] for a pattern with several groups. *)
Definition findall_groups (r : regex) (text : string) : list (list string) :=
  List.map captured (scan r 0 None text).

(** [re.search(pattern, text)] as a truth value. *)
Fixpoint search_from (r : regex) (b : option ascii) (s : string) : bool :=
  match match_at r b s with
  | Some _ => true
  | None =>
      match s with
      | String c s' => search_from r (Some c) s'
      | EmptyString => false
      end
  end.

Definition search (r : regex) (text : string) : bool := search_from r None text.

(** [re.sub(cls, '', text)] for a one-character class: drop its members. *)
Definition sub_class_empty (p : ascii -> bool) (text : string) : string :=
  Str.filter (fun c => negb (p c)) text.

(** A literal, case-sensitive. *)
Fixpoint lit (s : string) : regex :=
  match s with
  | EmptyString => Eps
  | String c s' => Seq (Chr (Chars.one c)) (lit s')
  end.

(** A literal under [re.IGNORECASE]. *)
Fixpoint lit_i (s : string) : regex :=
  match s with
  | EmptyString => Eps
  | String c s' =>
      Seq (Chr (Chars.icase (Chars.one (Chars.to_lower c)))) (lit_i s')
  end.

Fixpoint seq (rs : list regex) : regex :=
  match rs with
  | [] => Eps
  | [r] => r
  | r :: rs' => Seq r (seq rs')
  end.

Definition plus (p : ascii -> bool) : regex := Rep p 1 None.
Definition star (p : ascii -> bool) : regex := Rep p 0 None.
Definition maybe (p : ascii -> bool) : regex := Rep p 0 (Some 1).
Definition exactly (n : nat) (p : ascii -> bool) : regex := Rep p n (Some n).
Definition from_to (n m : nat) (p : ascii -> bool) : regex := Rep p n (Some m).
Definition at_least (n : nat) (p : ascii -> bool) : regex := Rep p n None.

End Re.

(** ** Exceptions

    A Python body either returns or raises; [try: ... except: return d]
    turns a raise into the default [d]. *)

Inductive outcome (A : Type) : Type :=
| Returns (a : A)
| Raises.
Arguments Returns {A} a.
Arguments Raises {A}.

Global Instance outcome_ret : MRet outcome := fun A a => Returns a.

Global Instance outcome_bind : MBind outcome := fun A B f m =>
  match m with
  | Returns a => f a
  | Raises => Raises
  end.

(** [l[i]]: an [IndexError] out of range. *)
Definition index {A : Type} (l : list A) (i : nat) : outcome A :=
  match nth_error l i with
  | Some a => Returns a
  | None => Raises
  end.

(** Truth value of a list: non-empty. *)
Definition nonempty {A : Type} (l : list A) : bool :=
  match l with [] => false | _ => true end.

Definition try_except {A : Type} (m : outcome A) (default : A) : A :=
  match m with
  | Returns a => a
  | Raises => default
  end.

(** ** [class EnhancedWebScraper] *)

Module EnhancedWebScraper.

Import Chars Re.

Definition any_of (s : string) (c : ascii) : bool := Str.contains_char c s.

(** [[A-Za-z0-9._%+-]] *)
Definition local_class (c : ascii) : bool :=
  alpha c || digit c || any_of "._%+-" c.

(** [[A-Za-z0-9.-]] *)
Definition domain_class (c : ascii) : bool :=
  alpha c || digit c || any_of ".-" c.

(** [[A-Z|a-z]] *)
Definition tld_class (c : ascii) : bool := alpha c || one "|" c.

(** [[-.\s]] *)
Definition sep_class (c : ascii) : bool := any_of "-." c || space c.

(** [self.email_pattern], compiled with [re.IGNORECASE]:
    [\b[A-Za-z0-9._%+-]+@[A-Za-z0-9.-]+\.[A-Z|a-z]{2,}\b] *)
Definition email_pattern : regex :=
  seq [ Bnd; plus (icase local_class); Chr (one "@");
        plus (icase domain_class); Chr (one ".");
        at_least 2 (icase tld_class); Bnd ].

(** [(?:\+?1[-.\s]?)?(?:\(?[0-9]{3}\)?[-.\s]?)?[0-9]{3}[-.\s]?[0-9]{4}] *)
Definition phone_north_america : regex :=
  seq [ Opt (seq [maybe (one "+"); Chr (one "1"); maybe sep_class]);
        Opt (seq [maybe (one "("); exactly 3 digit; maybe (one ")");
                  maybe sep_class]);
        exactly 3 digit; maybe sep_class; exactly 4 digit ].

(** [(?:\+CC[-.\s]?)?(?:\(?[0-9]{3,4}\)?[-.\s]?)?[0-9]{6,8}] for the
    country code [CC]. *)
Definition phone_country (cc : string) : regex :=
  seq [ Opt (seq [lit ("+" +:+ cc); maybe sep_class]);
        Opt (seq [maybe (one "("); from_to 3 4 digit; maybe (one ")");
                  maybe sep_class]);
        from_to 6 8 digit ].

(** [self.phone_pattern]: the three alternatives in the order written. *)
Definition phone_pattern : regex :=
  Alt phone_north_america (Alt (phone_country "49") (phone_country "44")).

(** [self.excluded_domains] *)
Definition excluded_domains : gset string :=
  list_to_set
    [ "example.com"; "test.com"; "domain.com"; "yoursite.com";
      "google.com"; "facebook.com"; "twitter.com"; "linkedin.com";
      "instagram.com"; "youtube.com"; "github.com"; "sentry.io";
      "gravatar.com"; "w3.org"; "schema.org"; "mozilla.org" ].

(** [fake_patterns]; [\.] is the literal dot. *)
Definition fake_patterns : list regex :=
  List.map lit
    [ "noreply"; "no-reply"; "donotreply"; "test@";
      "admin@example"; "user@example"; "@example.com";
      "placeholder"; "dummy"; "fake" ].

(** The body of [is_valid_email], inside its [try]. *)
Definition is_valid_email_body (email : string) : outcome bool :=
  if negb (Str.contains_char "@" email) then Returns false
  else
    d ← index (Str.split "@" email) 1;
    if negb (Str.contains_char "." d) then Returns false
    else
      d' ← index (Str.split "@" email) 1;
      let domain := Str.lower d' in
      if bool_decide (domain ∈ excluded_domains) then Returns false
      else if existsb (fun pattern => search pattern (Str.lower email))
                      fake_patterns
      then Returns false
      else Returns true.

(** [is_valid_email]: any exception of the body means [False]. *)
Definition is_valid_email (email : string) : bool :=
  try_except (is_valid_email_body email) false.

(** [obfuscated_patterns], each used with [re.IGNORECASE]. *)
Definition obfuscated_patterns : list regex :=
  [ seq [ Grp (plus (icase local_class)); star space;
          maybe (one "["); star space;
          Alt (lit_i "at") (lit_i "@"); star space;
          maybe (one "]"); star space;
          Grp (plus (icase domain_class)); star space;
          maybe (one "["); star space;
          Alt (lit_i "dot") (lit_i "."); star space;
          maybe (one "]"); star space;
          Grp (at_least 2 (icase alpha)) ];
    seq [ Grp (plus (icase local_class)); star space; lit_i "(at)";
          star space; Grp (plus (icase domain_class)); star space;
          lit_i "(dot)"; star space; Grp (at_least 2 (icase alpha)) ];
    seq [ Grp (plus (icase local_class)); star space; lit_i "AT";
          star space; Grp (plus (icase domain_class)); star space;
          lit_i "DOT"; star space; Grp (at_least 2 (icase alpha)) ] ].

(** [if self.is_valid_email(email): emails.add(email.lower())] *)
Definition add_email (emails : gset string) (email : string) : gset string :=
  if is_valid_email email then {[ Str.lower email ]} ∪ emails else emails.

(** [re.sub(r'[^\d+]', '', phone)] *)
Definition cleaned_phone (phone : string) : string :=
  sub_class_empty (fun c => negb (digit c || one "+" c)) phone.

(** [if len(cleaned_phone) >= 10: phones.add(phone)] *)
Definition add_phone (phones : gset string) (phone : string) : gset string :=
  if 10 <=? String.length (cleaned_phone phone)
  then {[ phone ]} ∪ phones else phones.

(** [re.sub(r'[^\d]', '', phone)]: the digits of a phone, as
    [scrape_website] counts them for a [tel:] link. *)
Definition digits_only (phone : string) : string :=
  sub_class_empty (fun c => negb (digit c)) phone.

(** [if len(re.sub(r'[^\d]', '', phone)) >= 10: phones.add(phone)], the
    floor [scrape_website] applies to the target of a [tel:] link. *)
Definition add_tel_phone (phones : gset string) (phone : string)
    : gset string :=
  if 10 <=? String.length (digits_only phone)
  then {[ phone ]} ∪ phones else phones.

(** [f"{local}@{domain}.{tld}".replace(' ', '')] *)
Definition rebuild (local domain tld : string) : string :=
  Str.filter (fun c => negb (one " " c))
             (local +:+ "@" +:+ domain +:+ "." +:+ tld).

Definition add_obfuscated (emails : gset string) (g : list string)
    : gset string :=
  match g with
  | [local; domain; tld] => add_email emails (rebuild local domain tld)
  | _ => emails
  end.

Definition extract_contacts_from_text (text : string)
    : gset string * gset string :=
  let emails := foldl add_email ∅ (findall email_pattern text) in
  let phones := foldl add_phone ∅ (findall phone_pattern text) in
  let emails :=
    foldl (fun emails pattern =>
             foldl add_obfuscated emails (findall_groups pattern text))
          emails obfuscated_patterns in
  (emails, phones).

(** What a validated, lowered e-mail looks like. *)
Definition prevalidated (e : string) : Prop :=
  is_valid_email e = true /\ Str.lower e = e.

End EnhancedWebScraper.

(** ** [categorize_emails] *)

Module Categorizer.

Import Re.

Inductive Category : Type :=
| executive | sales | support | hr | general
| technical | marketing | finance | personal.

Global Instance Category_eq_dec : EqDecision Category.
Proof. solve_decision. Defined.

(** The dictionary key of a category. *)
Definition category_name (c : Category) : string :=
  match c with
  | executive => "executive" | sales => "sales" | support => "support"
  | hr => "hr" | general => "general" | technical => "technical"
  | marketing => "marketing" | finance => "finance" | personal => "personal"
  end.

(** [categories], in the insertion order of the dictionary literal. *)
Definition categories : list (Category * list string) :=
  [ (executive, []); (sales, []); (support, []); (hr, []); (general, []);
    (technical, []); (marketing, []); (finance, []); (personal, []) ].

(** [patterns], in the insertion order of the dictionary literal. *)
Definition pattern_strings : list (Category * list string) :=
  [ (executive, ["ceo"; "president"; "director"; "manager"; "chief";
                 "geschaeftsfueh"; "vorstand"]);
    (sales, ["sales"; "business"; "commercial"; "vertrieb"; "verkauf"]);
    (support, ["support"; "help"; "service"; "kunde"; "customer"]);
    (hr, ["hr"; "personal"; "bewerbung"; "career"; "jobs"; "recruiting"]);
    (technical, ["tech"; "it"; "dev"; "admin"; "webmaster"; "engineering"]);
    (marketing, ["marketing"; "promotion"; "pr"; "media"; "communication"]);
    (finance, ["finance"; "accounting"; "billing"; "invoice"; "buchhal"]);
    (general, ["info"; "contact"; "office"; "hello"; "kontakt"; "mail"]) ].

Definition patterns : list (Category * list regex) :=
  List.map (fun '(c, l) => (c, List.map lit l)) pattern_strings.

(** [email.split('@')[0].lower()]; [split] is never empty. *)
Definition local_part (email : string) : string :=
  Str.lower (hd EmptyString (Str.split "@" email)).

(** The two nested [for] loops with their [break]s: the first category, in
    dictionary order, one of whose patterns is found in the local part. *)
Definition matching_category (local : string) : option Category :=
  fst <$> List.find
            (fun '(_, pattern_list) =>
               existsb (fun pattern => search pattern local) pattern_list)
            patterns.

(** ['.' in local_part and len(local_part.split('.')) == 2] *)
Definition looks_personal (local : string) : bool :=
  Str.contains_char "." local && (length (Str.split "." local) =? 2).

Definition category_of (email : string) : Category :=
  match matching_category (local_part email) with
  | Some category => category
  | None => if looks_personal (local_part email) then personal else general
  end.

(** [categories[category].append(email)] *)
Definition append_to (category : Category) (email : string)
    (cats : list (Category * list string)) : list (Category * list string) :=
  List.map (fun '(c, l) =>
              if decide (c = category) then (c, l ++ [email]) else (c, l))
           cats.

(** [{k: v for k, v in categories.items() if v}] of the filled dictionary. *)
Definition categorize_emails (emails : list string)
    : list (Category * list string) :=
  List.filter (fun '(_, v) => nonempty v)
    (foldl (fun cats email => append_to (category_of email) email cats)
           categories emails).

End Categorizer.

(** ** [parse_markdown_table] *)

Module ReportParser.

(** What [pd.DataFrame(rows, columns=headers)] holds. *)
Record DataFrame : Type := {
  columns : list string;
  data : list (list string)
}.

(** [pd.DataFrame(rows, columns=headers)] raises when a row has another
    number of cells than there are columns. *)
Definition make_DataFrame (rows : list (list string)) (headers : list string)
    : outcome DataFrame :=
  if forallb (fun row => length row =? length headers) rows
  then Returns {| columns := headers; data := rows |}
  else Raises.

Definition newline : ascii := "010".

(** [[line for line in lines if "|" in line and "---" not in line
      and line.strip()]] *)
Definition is_table_line (line : string) : bool :=
  Str.contains_char "|" line && negb (Str.contains "---" line)
  && Str.truthy (Str.strip line).

Definition table_lines (text : string) : list string :=
  List.filter is_table_line (Str.split newline text).

(** [[cell.strip() for cell in line.split("|") if cell.strip()]] *)
Definition header_cells (line : string) : list string :=
  List.map Str.strip
    (List.filter (fun cell => Str.truthy (Str.strip cell)) (Str.split "|" line)).

(** [while cells and not cells[0]: cells.pop(0)] *)
Fixpoint pop_front_empty (cells : list string) : list string :=
  match cells with
  | c :: cells' => if Str.truthy c then cells else pop_front_empty cells'
  | [] => []
  end.

(** [while cells and not cells[-1]: cells.pop()] *)
Fixpoint pop_back_empty (cells : list string) : list string :=
  match cells with
  | [] => []
  | c :: cells' =>
      match pop_back_empty cells' with
      | [] => if Str.truthy c then [c] else []
      | r => c :: r
      end
  end.

(** The cells of a line with the empty ones at both ends removed. *)
Definition trimmed_cells (line : string) : list string :=
  pop_back_empty (pop_front_empty (List.map Str.strip (Str.split "|" line))).

(** [while len(cells) < len(headers): cells.append("")] and
    [if len(cells) > len(headers): cells = cells[:len(headers)]] *)
Definition fit (n : nat) (cells : list string) : list string :=
  let cells := cells ++ List.repeat EmptyString (n - length cells) in
  if n <? length cells then firstn n cells else cells.

(** [any(cell.strip() for cell in cells)] *)
Definition meaningful (cells : list string) : bool :=
  existsb (fun cell => Str.truthy (Str.strip cell)) cells.

(** One turn of the loop over [table_lines[1:]]. *)
Definition add_row (n : nat) (rows : list (list string)) (line : string)
    : list (list string) :=
  let cells := fit n (trimmed_cells line) in
  if meaningful cells then rows ++ [cells] else rows.

(** The body of [parse_markdown_table], inside its [try]; [None] is the
    function's [return None]. *)
Definition parse_markdown_table_body (text : string)
    : outcome (option DataFrame) :=
  let table_lines := table_lines text in
  if length table_lines <? 2 then Returns None
  else
    first ← index table_lines 0;
    let headers := header_cells first in
    if negb (nonempty headers) then Returns None
    else
      let rows := foldl (add_row (length headers)) [] (skipn 1 table_lines) in
      if negb (nonempty rows) then Returns None
      else df ← make_DataFrame rows headers; Returns (Some df).

(** [parse_markdown_table]: [except Exception: return None]. *)
Definition parse_markdown_table (text : string) : option DataFrame :=
  try_except (parse_markdown_table_body text) None.

(** The rows the loop keeps, written without the loop. *)
Definition kept_rows (n : nat) (lines : list string) : list (list string) :=
  List.filter meaningful (List.map (fun line => fit n (trimmed_cells line)) lines).

(** [parse_markdown_table] without its [try]: the result in closed form. *)
Definition parsed (text : string) : option DataFrame :=
  match table_lines text with
  | first :: line :: lines =>
      let headers := header_cells first in
      let rows := kept_rows (length headers) (line :: lines) in
      if nonempty headers && nonempty rows
      then Some {| columns := headers; data := rows |}
      else None
  | _ => None
  end.

(** A table of three data rows whose second row is one cell short. *)
Definition sample_table : string :=
  Str.join (String newline EmptyString)
    [ "| Name | Email | Phone |";
      "|------|-------|-------|";
      "| Ann | ann@acme.co | 555-0100 |";
      "| Bob | bob@acme.co |";
      "| Cy | cy@acme.co | 555-0102 |" ].

Definition sample_frame : DataFrame :=
  {| columns := ["Name"; "Email"; "Phone"];
     data := [ ["Ann"; "ann@acme.co"; "555-0100"];
               ["Bob"; "bob@acme.co"; ""];
               ["Cy"; "cy@acme.co"; "555-0102"] ] |}.

(** The example output of the research prompt of [search_with_ai], written
    out for the domain acme.co: its second record has no name. *)
Definition example_output : string :=
  Str.join (String newline EmptyString)
    [ "| Name | Role | Email | Phone | LinkedIn/Xing URL | Source | Confidence |";
      "|------|------|-------|-------|-------------------|--------|------------|";
      "| John Smith | CEO | j.smith@acme.co | +1-555-0123 | linkedin.com/in/johnsmith | Company Website | High |";
      "| | General Contact | info@acme.co | +1-555-0100 | | Website Contact Page | High |";
      "| Jane Doe | HR Director | hr@acme.co | | xing.com/profile/janedoe | Business Directory | Medium |" ].

(** What [parse_markdown_table] makes of [example_output]. *)
Definition example_frame : DataFrame :=
  {| columns := ["Name"; "Role"; "Email"; "Phone"; "LinkedIn/Xing URL";
                 "Source"; "Confidence"];
     data := [ ["John Smith"; "CEO"; "j.smith@acme.co"; "+1-555-0123";
                "linkedin.com/in/johnsmith"; "Company Website"; "High"];
               ["General Contact"; "info@acme.co"; "+1-555-0100"; "";
                "Website Contact Page"; "High"; ""];
               ["Jane Doe"; "HR Director"; "hr@acme.co"; "";
                "xing.com/profile/janedoe"; "Business Directory"; "Medium"] ] |}.

End ReportParser.

(** ** The result bookkeeping of [main] *)

Module Main.

Import Categorizer.

(** What one research method hands to [main]: its key in [method_results],
    the e-mail set and the phone set. *)
Record SourceResult : Type := {
  sourceId : string;
  src_emails : gset string;
  src_phones : gset string
}.

(** [all_emails], [all_phones] and [method_results]; the dictionary keeps
    its insertion order. *)
Record Results : Type := {
  all_emails : gset string;
  all_phones : gset string;
  method_results : list (string * gset string)
}.

(** [all_emails = set()], [all_phones = set()], [method_results = {}] *)
Definition no_results : Results :=
  {| all_emails := ∅; all_phones := ∅; method_results := [] |}.

(** [d[key] = value]: replaced in place, or appended when the key is new. *)
Fixpoint dict_set (key : string) (value : gset string)
    (d : list (string * gset string)) : list (string * gset string) :=
  match d with
  | [] => [(key, value)]
  | (k, v) :: d' =>
      if decide (k = key) then (k, value) :: d'
      else (k, v) :: dict_set key value d'
  end.

(** [d.get(key)] *)
Fixpoint dict_get (key : string) (d : list (string * gset string))
    : option (gset string) :=
  match d with
  | [] => None
  | (k, v) :: d' => if decide (k = key) then Some v else dict_get key d'
  end.

(** The three statements with which [main] takes in a method's result:
    [all_emails.update(res['emails'])], [all_phones.update(res['phones'])],
    [method_results[key] = res['emails']]. *)
Definition merge (r : Results) (s : SourceResult) : Results :=
  {| all_emails := all_emails r ∪ src_emails s;
     all_phones := all_phones r ∪ src_phones s;
     method_results := dict_set (sourceId s) (src_emails s) (method_results r) |}.

(** What the four research methods returned; [None] when the method was
    not selected or its result was unusable. *)
Record Collected : Type := {
  whois_emails : option (list string);
  scraping_results : option (gset string * gset string);
  web_results : option (gset string * gset string);
  ai_emails : option (gset string)
}.

(** Method 1: [if 'emails' in whois_info:] the lowered e-mails, no phones. *)
Definition whois_source (c : Collected) : list SourceResult :=
  match whois_emails c with
  | Some emails =>
      [ {| sourceId := "whois";
           src_emails := list_to_set (List.map Str.lower emails);
           src_phones := ∅ |} ]
  | None => []
  end.

(** Methods 2 and 3: [if res['emails'] or res['phones']:] *)
Definition contact_source (key : string)
    (res : option (gset string * gset string)) : list SourceResult :=
  match res with
  | Some (emails, phones) =>
      if nonempty (elements emails) || nonempty (elements phones)
      then [ {| sourceId := key; src_emails := emails; src_phones := phones |} ]
      else []
  | None => []
  end.

(** Method 4: the e-mails read off the parsed table, no phones. *)
Definition ai_source (c : Collected) : list SourceResult :=
  match ai_emails c with
  | Some emails =>
      [ {| sourceId := "ai_research"; src_emails := emails; src_phones := ∅ |} ]
  | None => []
  end.

(** The results taken in, in the order [main] runs the methods. *)
Definition sources (c : Collected) : list SourceResult :=
  whois_source c
  ++ contact_source "website_scraping" (scraping_results c)
  ++ contact_source "web_search" (web_results c)
  ++ ai_source c.

Definition research (c : Collected) : Results :=
  foldl merge no_results (sources c).

(** [[method for method, method_emails in method_results.items()
      if email in method_emails]] *)
Definition found_by_methods (email : string)
    (d : list (string * gset string)) : list string :=
  List.map fst (List.filter (fun '(_, es) => bool_decide (email ∈ es)) d).

(** The sources recorded for a contact value. *)
Definition provenance (r : Results) (value : string) : gset string :=
  list_to_set (found_by_methods value (method_results r)).

(** [s.title()] on ASCII letters: a letter is raised after a character
    without case and lowered after one with case. *)
Fixpoint title_from (prev_cased : bool) (s : string) : string :=
  match s with
  | EmptyString => EmptyString
  | String c s' =>
      let c' :=
        if prev_cased then
          if Chars.upper c then ascii_of_N (Chars.code c + 32) else c
        else
          if Chars.lower c then ascii_of_N (Chars.code c - 32) else c in
      String c' (title_from (Chars.alpha c) s')
  end.

Definition title (s : string) : string := title_from false s.

(** The columns of an [export_data] record that depend on the contact; the
    other columns repeat the form's fields on every record. *)
Record ExportRow : Type := {
  Contact : string;
  Type_ : string;
  Category_ : string;
  Found_By : string
}.

Definition email_row (r : Results) (category : Category) (email : string)
    : ExportRow :=
  {| Contact := email;
     Type_ := "Email";
     Category_ := title (category_name category);
     Found_By := Str.join ", " (found_by_methods email (method_results r)) |}.

Definition phone_row (phone : string) : ExportRow :=
  {| Contact := phone;
     Type_ := "Phone";
     Category_ := "General";
     Found_By := "multi-source" |}.

(** [if all_emails:] one record per categorized e-mail. *)
Definition email_rows (r : Results) : list ExportRow :=
  if nonempty (elements (all_emails r)) then
    flat_map (fun '(category, emails) => List.map (email_row r category) emails)
             (categorize_emails (elements (all_emails r)))
  else [].

(** [if all_phones:] one record per phone. *)
Definition phone_rows (r : Results) : list ExportRow :=
  if nonempty (elements (all_phones r)) then
    List.map phone_row (elements (all_phones r))
  else [].

Definition export_data (r : Results) : list ExportRow :=
  email_rows r ++ phone_rows r.

(** The specification's normalized-digit key of a phone, which [app.py]
    does not compute: the digits, after a plus sign when the string starts
    with one. *)
Definition digit_key (phone : string) : string :=
  match phone with
  | String "+" _ => String "+" (EnhancedWebScraper.digits_only phone)
  | _ => EnhancedWebScraper.digits_only phone
  end.

(** No two different entries of a phone set share their digit key. *)
Definition merged_by_digit_key (phones : gset string) : Prop :=
  forall p q, p ∈ phones -> q ∈ phones -> digit_key p = digit_key q -> p = q.

(** Every collected contact has a source recorded for it. *)
Definition provenance_complete (r : Results) : Prop :=
  forall value,
    value ∈ all_emails r ∪ all_phones r -> provenance r value <> ∅.

(** Two results with the same e-mails, phones and provenance. *)
Definition same_results (r1 r2 : Results) : Prop :=
  all_emails r1 = all_emails r2 /\
  all_phones r1 = all_phones r2 /\
  forall value, provenance r1 value = provenance r2 value.

(** A run in which WHOIS and the website scrape found contacts and the
    other two methods found none. *)
Definition sample_run : Collected :=
  {| whois_emails := Some ["Owner@acme.co"];
     scraping_results :=
       Some ({[ "owner@acme.co"; "jane.roe@acme.co" ]}, {[ "555-123-4567" ]});
     web_results := Some (∅, ∅);
     ai_emails := None |}.

Definition sample_whois : SourceResult :=
  {| sourceId := "whois";
     src_emails := list_to_set (List.map Str.lower ["Owner@acme.co"]);
     src_phones := ∅ |}.

Definition sample_scrape : SourceResult :=
  {| sourceId := "website_scraping";
     src_emails := {[ "owner@acme.co"; "jane.roe@acme.co" ]};
     src_phones := {[ "555-123-4567" ]} |}.

End Main.

(** ** What a pattern can match

    The words of a pattern, read off its syntax ([\b] and groups consume
    nothing of their own), and bounds on how many characters of a class a
    word can hold. *)

Module Shape.

Import Re.

Fixpoint all_chars (p : ascii -> bool) (w : string) : bool :=
  match w with
  | EmptyString => true
  | String c w' => p c && all_chars p w'
  end.

(** The number of characters of [w] that are in the class [q]. *)
Definition count (q : ascii -> bool) (w : string) : nat :=
  String.length (Str.filter q w).

Definition at_most (hi : option nat) (n : nat) : Prop :=
  match hi with Some h => n <= h | None => True end.

Fixpoint lang (r : regex) (w : string) : Prop :=
  match r with
  | Eps => w = EmptyString
  | Chr p => exists c, w = String c EmptyString /\ p c = true
  | Seq r1 r2 => exists w1 w2, w = w1 +:+ w2 /\ lang r1 w1 /\ lang r2 w2
  | Alt r1 r2 => lang r1 w \/ lang r2 w
  | Opt r1 => w = EmptyString \/ lang r1 w
  | Rep p lo hi =>
      all_chars p w = true /\ lo <= String.length w /\
      at_most hi (String.length w)
  | Grp r1 => lang r1 w
  | Bnd => w = EmptyString
  end.

(** [w] stands somewhere in [s]. *)
Definition occurs_in (w s : string) : Prop :=
  exists pre post, s = pre +:+ w +:+ post.

Definition all_ascii : list ascii := List.map ascii_of_nat (List.seq 0 256).

(** Every character of class [p] is in class [q]. *)
Definition within (p q : ascii -> bool) : bool :=
  forallb (fun c => implb (p c) (q c)) all_ascii.

(** No character is in both classes. *)
Definition apart (p q : ascii -> bool) : bool :=
  forallb (fun c => negb (p c && q c)) all_ascii.

(** How many characters of [q] one character of [p] is: at least, at most. *)
Definition unit_range (q p : ascii -> bool) : nat * nat :=
  if within p q then (1, 1) else if apart p q then (0, 0) else (0, 1).

Definition add_hi (a b : option nat) : option nat :=
  match a, b with
  | Some x, Some y => Some (x + y)
  | _, _ => None
  end.

Definition max_hi (a b : option nat) : option nat :=
  match a, b with
  | Some x, Some y => Some (Nat.max x y)
  | _, _ => None
  end.

(** Bounds on the number of characters of [q] in a word of [r]. *)
Fixpoint count_range (q : ascii -> bool) (r : regex) : nat * option nat :=
  match r with
  | Eps | Bnd => (0, Some 0)
  | Chr p => let '(a, b) := unit_range q p in (a, Some b)
  | Seq r1 r2 =>
      let '(a1, b1) := count_range q r1 in
      let '(a2, b2) := count_range q r2 in
      (a1 + a2, add_hi b1 b2)
  | Alt r1 r2 =>
      let '(a1, b1) := count_range q r1 in
      let '(a2, b2) := count_range q r2 in
      (Nat.min a1 a2, max_hi b1 b2)
  | Opt r1 => let '(_, b1) := count_range q r1 in (0, b1)
  | Rep p lo hi =>
      let '(a, b) := unit_range q p in
      (a * lo,
       match hi with
       | Some h => Some (b * h)
       | None => if b =? 0 then Some 0 else None
       end)
  | Grp r1 => count_range q r1
  end.

End Shape.

(** The characters a match of [phone_pattern] can hold. *)
Definition phone_char (c : ascii) : bool :=
  Chars.digit c || EnhancedWebScraper.any_of "+()-." c || Chars.space c.

(** ** [EnhancedWebScraper.scrape_website] *)

Module ScrapeWebsite.

Import EnhancedWebScraper.

(** [contact_patterns], in the order written. *)
Definition contact_patterns : list string :=
  [ "/contact"; "/contact-us"; "/contact.html"; "/contact.php";
    "/about"; "/about-us"; "/about.html"; "/team"; "/staff"; "/people";
    "/leadership"; "/management"; "/executives"; "/directory";
    "/kontakt"; "/kontakt.html"; "/impressum"; "/impressum.html";
    "/ueber-uns"; "/team"; "/mitarbeiter"; "/ansprechpartner";
    "/contact"; "/nous-contacter"; "/equipe"; "/a-propos";
    "/contacto"; "/equipo"; "/sobre-nosotros";
    "/en/contact"; "/de/kontakt"; "/fr/contact"; "/es/contacto";
    "/company"; "/corporate"; "/office"; "/locations" ].

(** [urls_to_check] after the loop over [contact_patterns]; [base_path] is
    the scheme and host of [base_url], as [urlparse] gives them. *)
Definition urls_to_check (base_url base_path : string) : list string :=
  base_url ::
  flat_map (fun pattern =>
              [base_path +:+ pattern; base_path +:+ Str.upper pattern])
           contact_patterns.

(** A JSON-LD block that [json.loads] read as a dictionary: its ['email']
    and ['telephone'] entries, when present and strings. *)
Record JsonLd : Type := {
  ld_email : option string;
  ld_telephone : option string
}.

(** What the parsed page hands to the loop: [soup.get_text()], the [href]
    of each [a] element that has one, and the JSON-LD scripts ([None] for
    one that is not a dictionary or does not parse). *)
Record Page : Type := {
  text_content : string;
  anchors : list string;
  json_scripts : list (option JsonLd)
}.

(** [link['href'][7:].split('?')[0]] *)
Definition mailto_email (href : string) : string :=
  hd EmptyString (Str.split "?" (Str.drop 7 href)).

(** [link['href'][4:].strip()] *)
Definition tel_phone (href : string) : string := Str.strip (Str.drop 4 href).

(** One JSON-LD script, inside its [try]. *)
Definition add_json_ld (found : gset string * gset string)
    (script : option JsonLd) : gset string * gset string :=
  match script with
  | Some data =>
      let emails :=
        match ld_email data with
        | Some email => add_email found.1 email
        | None => found.1
        end in
      let phones :=
        match ld_telephone data with
        | Some telephone => {[ telephone ]} ∪ found.2
        | None => found.2
        end in
      (emails, phones)
  | None => found
  end.

(** The e-mails and phones of one page. *)
Definition page_contacts (page : Page) : gset string * gset string :=
  let '(emails, phones) := extract_contacts_from_text (text_content page) in
  let emails :=
    foldl (fun emails href => add_email emails (mailto_email href)) emails
          (List.filter (Str.starts_with "mailto:") (anchors page)) in
  let phones :=
    foldl (fun phones href => add_tel_phone phones (tel_phone href)) phones
          (List.filter (Str.starts_with "tel:") (anchors page)) in
  foldl add_json_ld (emails, phones) (json_scripts page).

(** What one turn of the loop meets: a page answered with status 200, no
    such answer, or an exception raised under the [try]. *)
Inductive Response : Type :=
| Fetched (page : Page)
| NoPage
| Failed (message : string).

(** An entry of [pages_scraped]. *)
Record PageEntry : Type := {
  url : string;
  emails_found : nat;
  phones_found : nat;
  status : string
}.

(** The dictionary [scrape_website] returns. *)
Record ScrapeResult : Type := {
  res_emails : gset string;
  res_phones : gset string;
  pages_scraped : list PageEntry;
  successful_scrapes : nat
}.

Definition scrape_start : ScrapeResult :=
  {| res_emails := ∅; res_phones := ∅; pages_scraped := [];
     successful_scrapes := 0 |}.

(** One turn of the loop over [enumerate(urls_to_check[:max_pages])]. *)
Definition scrape_step (fetch : nat -> string -> Response)
    (st : ScrapeResult) (turn : nat * string) : ScrapeResult :=
  match fetch turn.1 turn.2 with
  | Fetched page =>
      let '(emails, phones) := page_contacts page in
      let found := nonempty (elements emails) || nonempty (elements phones) in
      {| res_emails := res_emails st ∪ emails;
         res_phones := res_phones st ∪ phones;
         pages_scraped :=
           if found then
             pages_scraped st ++
             [ {| url := turn.2; emails_found := size emails;
                  phones_found := size phones; status := "success" |} ]
           else pages_scraped st;
         successful_scrapes :=
           if found then S (successful_scrapes st)
           else successful_scrapes st |}
  | NoPage => st
  | Failed message =>
      {| res_emails := res_emails st;
         res_phones := res_phones st;
         pages_scraped :=
           pages_scraped st ++
           [ {| url := turn.2; emails_found := 0; phones_found := 0;
                status := "error: " +:+ message |} ];
         successful_scrapes := successful_scrapes st |}
  end.

Definition scrape_website (fetch : nat -> string -> Response)
    (base_url base_path : string) (max_pages : nat) : ScrapeResult :=
  let urls := firstn max_pages (urls_to_check base_url base_path) in
  foldl (scrape_step fetch) scrape_start
        (combine (List.seq 0 (length urls)) urls).

(** The paths the crawl can reach when [max_pages] is at most 30, the
    upper end of the slider in [main]. *)
Definition reachable_paths : list string :=
  [ "/contact"; "/CONTACT"; "/contact-us"; "/CONTACT-US";
    "/contact.html"; "/CONTACT.HTML"; "/contact.php"; "/CONTACT.PHP";
    "/about"; "/ABOUT"; "/about-us"; "/ABOUT-US";
    "/about.html"; "/ABOUT.HTML"; "/team"; "/TEAM"; "/staff"; "/STAFF";
    "/people"; "/PEOPLE"; "/leadership"; "/LEADERSHIP";
    "/management"; "/MANAGEMENT"; "/executives"; "/EXECUTIVES";
    "/directory"; "/DIRECTORY"; "/kontakt" ].

(** The entries of [pages_scraped] with status ['success']. *)
Definition successes (entries : list PageEntry) : list PageEntry :=
  List.filter (fun entry => bool_decide (status entry = "success")) entries.

(** What the loop keeps true of its counters. *)
Definition counters_agree (st : ScrapeResult) : Prop :=
  successful_scrapes st = length (successes (pages_scraped st)) /\
  (successful_scrapes st = 0 <-> res_emails st = ∅ /\ res_phones st = ∅) /\
  Forall (fun entry => status entry = "success" ->
                       1 <= emails_found entry + phones_found entry)
         (pages_scraped st).

(** A site whose first page answers, whose second does not and whose
    other pages fail. *)
Definition sample_fetch (i : nat) (_ : string) : Response :=
  match i with
  | 0 => Fetched {| text_content := "Write to J.Smith@acme.co or call us";
                    anchors := [ "mailto:Sales@Acme.co?subject=Hello";
                                 "tel:+1 555 123 4567"; "/about" ];
                    json_scripts := [] |}
  | 1 => NoPage
  | _ => Failed "timed out"
  end.

End ScrapeWebsite.

(** ** [ComprehensiveContactFinder.search_web_sources] *)

Module WebSearch.

Import EnhancedWebScraper.

(** The double quote of the query strings. *)
Definition quote : string := String "034" EmptyString.

(** A search result: its ['title'] and ['content'] entries, when present. *)
Record SearchHit : Type := {
  hit_title : option string;
  hit_content : option string
}.

(** [f"{result.get('title', '')} {result.get('content', '')}"] *)
Definition hit_text (hit : SearchHit) : string :=
  default EmptyString (hit_title hit) +:+ " "
  +:+ default EmptyString (hit_content hit).

(** [search_queries]; [netloc] is [urlparse(website).netloc]. *)
Definition search_queries (company netloc country : string) : list string :=
  [ quote +:+ company +:+ quote +:+ " contact email phone " +:+ country;
    quote +:+ company +:+ quote +:+ " executives management team";
    quote +:+ company +:+ quote +:+ " employee directory staff";
    "site:" +:+ netloc +:+ " contact email";
    quote +:+ company +:+ quote +:+ " press release contact spokesperson";
    quote +:+ company +:+ quote +:+ " business directory listing" ]
  ++ (if bool_decide (Str.lower country ∈ ["germany"; "deutschland"])
      then [ quote +:+ company +:+ quote +:+ " impressum kontakt" ]
      else []).

(** The dictionary [search_web_sources] returns. *)
Record SearchOutcome : Type := {
  found_emails : gset string;
  found_phones : gset string;
  results_found : nat;
  search_results : list SearchHit
}.

(** [all_results] after the three provider blocks; the providers are the
    methods of [RealTimeWebSearcher]. *)
Definition all_results
    (search_tavily search_bing : string -> string -> list SearchHit)
    (search_duckduckgo : string -> list SearchHit)
    (tavily_key bing_key : string) (queries : list string) : list SearchHit :=
  (if Str.truthy tavily_key
   then flat_map (fun query => search_tavily query tavily_key)
                 (firstn 3 queries)
   else [])
  ++ (if Str.truthy bing_key
      then flat_map (fun query => search_bing query bing_key)
                    (firstn 2 queries)
      else [])
  ++ (if negb (Str.truthy tavily_key) && negb (Str.truthy bing_key)
      then flat_map search_duckduckgo (firstn 2 queries)
      else []).

(** The loop that extracts the contacts of each result. *)
Definition add_hit (found : gset string * gset string) (hit : SearchHit)
    : gset string * gset string :=
  let '(emails, phones) := extract_contacts_from_text (hit_text hit) in
  (found.1 ∪ emails, found.2 ∪ phones).

Definition search_web_sources
    (search_tavily search_bing : string -> string -> list SearchHit)
    (search_duckduckgo : string -> list SearchHit)
    (tavily_key bing_key company netloc country : string) : SearchOutcome :=
  let results :=
    all_results search_tavily search_bing search_duckduckgo
                tavily_key bing_key (search_queries company netloc country) in
  let found := foldl add_hit (∅, ∅) results in
  {| found_emails := found.1;
     found_phones := found.2;
     results_found := length results;
     search_results := firstn 10 results |}.

End WebSearch.

(** ** The e-mails [main] reads off the AI report *)

Module AiResearch.

Import EnhancedWebScraper ReportParser.

(** What the loop [for email in df[col].dropna()] goes through: the cells
    of the column when its name is the name of one column only, and the
    column labels of the sub-frame when several columns have the name. *)
Definition column_cells (df : DataFrame) (col : string) : list string :=
  match List.filter (fun entry => String.eqb col (snd entry))
                    (combine (List.seq 0 (length (columns df))) (columns df))
  with
  | [(i, _)] => List.map (fun row => nth i row EmptyString) (data df)
  | entries => List.map snd entries
  end.

(** [if '@' in str(email) and '(estimated)' not in str(email):] the
    stripped, lowered cell is added when the validator accepts it. *)
Definition add_ai_email (ai_emails : gset string) (email : string)
    : gset string :=
  if Str.contains_char "@" email && negb (Str.contains "(estimated)" email)
  then
    let clean_email := Str.lower (Str.strip email) in
    if is_valid_email clean_email then {[ clean_email ]} ∪ ai_emails
    else ai_emails
  else ai_emails.

(** What [add_ai_email] asks of a cell to add the e-mail [e]. *)
Definition taken_from (cell e : string) : Prop :=
  Str.contains_char "@" cell = true /\
  Str.contains "(estimated)" cell = false /\
  e = Str.lower (Str.strip cell) /\ is_valid_email e = true.

(** [ai_emails] after the loop over [df.columns]. *)
Definition ai_emails (df : DataFrame) : gset string :=
  foldl (fun found col =>
           if Str.contains "email" (Str.lower col)
           then foldl add_ai_email found (column_cells df col)
           else found)
        ∅ (columns df).

End AiResearch.

(** ** The e-mails of [get_whois_info] *)

Module Whois.

(** The [emails] attribute of the WHOIS record: missing or [None], one
    string, or a list. *)
Inductive EmailsField : Type :=
| NoEmails
| OneEmail (email : string)
| ManyEmails (emails : list string).

Definition generic_fragments : list string :=
  ["whoisguard"; "proxy"; "privacy"; "registrar"].

(** [not any(generic in email.lower() for generic in [...])] *)
Definition not_generic (email : string) : bool :=
  negb (existsb (fun generic => Str.contains generic (Str.lower email))
                generic_fragments).

(** [emails], the list the filter runs over; nothing when the attribute is
    missing or false. *)
Definition field_emails (field : EmailsField) : list string :=
  match field with
  | NoEmails => []
  | OneEmail email => if Str.truthy email then [email] else []
  | ManyEmails emails => emails
  end.

(** [info['emails']] when [get_whois_info] sets it: [list(set(...))] of the
    e-mails that are not a registrar's. *)
Definition info_emails (field : EmailsField) : option (list string) :=
  let filtered_emails := List.filter not_generic (field_emails field) in
  if nonempty filtered_emails
  then Some (elements (list_to_set filtered_emails : gset string))
  else None.

End Whois.

(** ** One run of [main], from what the methods meet *)

Module Research.

Import ScrapeWebsite WebSearch.

(** What the website scrape is run on. *)
Record ScrapeJob : Type := {
  fetch : nat -> string -> Response;
  base_url : string;
  base_path : string;
  max_pages : nat
}.

(** What the web search is run on. *)
Record SearchJob : Type := {
  search_tavily : string -> string -> list SearchHit;
  search_bing : string -> string -> list SearchHit;
  search_duckduckgo : string -> list SearchHit;
  tavily_key : string;
  bing_key : string;
  company : string;
  netloc : string;
  country : string
}.

Definition run_scrape (job : ScrapeJob) : gset string * gset string :=
  let res := scrape_website (fetch job) (base_url job) (base_path job)
                            (max_pages job) in
  (res_emails res, res_phones res).

Definition run_search (job : SearchJob) : gset string * gset string :=
  let res := search_web_sources (search_tavily job) (search_bing job)
               (search_duckduckgo job) (tavily_key job) (bing_key job)
               (company job) (netloc job) (country job) in
  (found_emails res, found_phones res).

(** What the four methods hand to [main]; an argument is [None] when its
    method is not selected or gave nothing to read. *)
Definition collect (whois : option Whois.EmailsField)
    (scrape : option ScrapeJob) (search : option SearchJob)
    (ai_result : option string) : Main.Collected :=
  {| Main.whois_emails := whois ≫= Whois.info_emails;
     Main.scraping_results := run_scrape <$> scrape;
     Main.web_results := run_search <$> search;
     Main.ai_emails :=
       ai_result ≫= fun text =>
         AiResearch.ai_emails <$> ReportParser.parse_markdown_table text |}.

End Research.

(** ** [generate_email_patterns] *)

Module PatternGenerator.

(** [f"{local}@{domain}"] for each local part. *)
Definition at_domain (domain : string) (locals : list string) : list string :=
  List.map (fun local => local +:+ "@" +:+ domain) locals.

Definition industry_has (industry_lower : string) (words : list string)
    : bool :=
  existsb (fun word => Str.contains word industry_lower) words.

(** The dictionary returned, in insertion order. *)
Definition generate_email_patterns (domain country industry : string)
    : list (string * list string) :=
  [ ("Standard Business",
     at_domain domain ["info"; "contact"; "hello"; "office"; "mail"; "admin"]);
    ("Executive",
     at_domain domain
       ["ceo"; "president"; "director"; "manager"; "leadership"]);
    ("Departments",
     at_domain domain
       ["sales"; "marketing"; "hr"; "support"; "finance"; "operations"]) ]
  ++ (if bool_decide (Str.lower country ∈ ["germany"; "deutschland"; "de"])
      then [ ("German Business",
              at_domain domain
                ["kontakt"; "personal"; "bewerbung"; "geschaeftsleitung";
                 "verwaltung"; "vertrieb"]) ]
      else [])
  ++ (if Str.truthy industry then
        let industry_lower := Str.lower industry in
        if industry_has industry_lower
             ["education"; "school"; "university"; "bildung"]
        then [ ("Education",
                at_domain domain
                  ["admissions"; "registrar"; "faculty"; "academic";
                   "students"]) ]
        else if industry_has industry_lower ["tech"; "technology"; "software"]
        then [ ("Technology",
                at_domain domain
                  ["dev"; "tech"; "engineering"; "product"; "api"]) ]
        else if industry_has industry_lower
                  ["healthcare"; "medical"; "hospital"]
        then [ ("Healthcare",
                at_domain domain
                  ["appointments"; "patients"; "medical"; "clinic"]) ]
        else []
      else []).

End PatternGenerator.

(** A phone with nine to fourteen digits. *)
Definition phone_sized (p : string) : Prop :=
  9 <= String.length (EnhancedWebScraper.digits_only p) <= 14.

(** * Properties *)

(** A decidable closed statement, settled by evaluating its decision. *)
Ltac by_evaluation :=
  refine (bool_decide_unpack _ _); vm_compute; exact I.

(** ** Characters and strings *)

Section StringFacts.

Lemma to_lower_idem c : Chars.to_lower (Chars.to_lower c) = Chars.to_lower c.
Proof. destruct c as [[] [] [] [] [] [] [] []]; reflexivity. Qed.

(** Lowering neither makes nor removes a character without case. *)
Lemma to_lower_eqb_at c : Ascii.eqb (Chars.to_lower c) "@" = Ascii.eqb c "@".
Proof. destruct c as [[] [] [] [] [] [] [] []]; reflexivity. Qed.

Lemma to_lower_eqb_dot c : Ascii.eqb (Chars.to_lower c) "." = Ascii.eqb c ".".
Proof. destruct c as [[] [] [] [] [] [] [] []]; reflexivity. Qed.

Lemma lower_idem s : Str.lower (Str.lower s) = Str.lower s.
Proof.
  unfold Str.lower. induction s as [|c s IH]; simpl; [reflexivity|].
  now rewrite to_lower_idem, IH.
Qed.

Lemma contains_at_lower s :
  Str.contains_char "@" (Str.lower s) = Str.contains_char "@" s.
Proof.
  unfold Str.lower. induction s as [|c s IH]; simpl; [reflexivity|].
  now rewrite to_lower_eqb_at, IH.
Qed.

Lemma contains_dot_lower s :
  Str.contains_char "." (Str.lower s) = Str.contains_char "." s.
Proof.
  unfold Str.lower. induction s as [|c s IH]; simpl; [reflexivity|].
  now rewrite to_lower_eqb_dot, IH.
Qed.

Lemma split_at_lower s :
  Str.split "@" (Str.lower s) = List.map Str.lower (Str.split "@" s).
Proof.
  unfold Str.lower. induction s as [|c s IH]; simpl; [reflexivity|].
  rewrite to_lower_eqb_at. destruct (Ascii.eqb c "@"); simpl.
  - now rewrite IH.
  - rewrite IH. now destruct (Str.split "@" s).
Qed.

Lemma split_not_nil sep s : Str.split sep s <> [].
Proof.
  destruct s as [|c s]; simpl; [discriminate|].
  destruct (Ascii.eqb c sep); [discriminate|].
  destruct (Str.split sep s); discriminate.
Qed.

(** A string that holds the separator splits into two parts at least. *)
Lemma split_two sep s :
  Str.contains_char sep s = true -> 2 <= length (Str.split sep s).
Proof.
  induction s as [|c s IH]; simpl; [discriminate|].
  destruct (Ascii.eqb c sep); simpl.
  - intros _. pose proof (split_not_nil sep s).
    destruct (Str.split sep s); [contradiction|simpl; lia].
  - intros H. specialize (IH H).
    destruct (Str.split sep s); simpl in *; lia.
Qed.

Lemma index_map {A B : Type} (f : A -> B) (l : list A) (i : nat) :
  index (List.map f l) i =
  match index l i with Returns a => Returns (f a) | Raises => Raises end.
Proof.
  unfold index. rewrite nth_error_map. now destruct (nth_error l i).
Qed.

Lemma index_in_range {A : Type} (l : list A) (i : nat) :
  i < length l -> exists a, index l i = Returns a.
Proof.
  intros H. unfold index. destruct (nth_error l i) eqn:E; [eauto|].
  apply nth_error_None in E. lia.
Qed.

End StringFacts.

(** A loop that only adds to its accumulator keeps what every step keeps. *)
Lemma foldl_invariant {A B : Type} (Inv : A -> Prop) (f : A -> B -> A)
    (l : list B) (a : A) :
  Inv a -> (forall a' x, Inv a' -> Inv (f a' x)) -> Inv (foldl f a l).
Proof.
  intros Ha Hstep. revert a Ha.
  induction l as [|x l IH]; simpl; intros a Ha; [assumption|].
  apply IH, Hstep, Ha.
Qed.

(** ** The validator *)

Section Validator.

Import EnhancedWebScraper.

(** The [except] branch of [is_valid_email] is never taken. *)
Lemma is_valid_email_body_returns email :
  is_valid_email_body email = Returns (is_valid_email email).
Proof.
  unfold is_valid_email, is_valid_email_body.
  destruct (Str.contains_char "@" email) eqn:Hat; simpl; [|reflexivity].
  destruct (index_in_range (Str.split "@" email) 1) as [d Hd].
  { apply split_two in Hat. lia. }
  rewrite Hd. cbv [mbind outcome_bind try_except negb].
  repeat case_match; reflexivity.
Qed.

(** Lowering a candidate does not change the validator's answer. *)
Lemma is_valid_email_lower email :
  is_valid_email (Str.lower email) = is_valid_email email.
Proof.
  unfold is_valid_email, is_valid_email_body.
  rewrite contains_at_lower, split_at_lower, index_map, lower_idem.
  destruct (Str.contains_char "@" email); [|reflexivity].
  destruct (index (Str.split "@" email) 1) as [d|]; [|reflexivity].
  cbv [mbind outcome_bind try_except negb].
  now rewrite contains_dot_lower, lower_idem.
Qed.

End Validator.

(** ** The extractor *)

Section Extractor.

Import EnhancedWebScraper.

Lemma add_email_prevalidated emails email :
  set_Forall prevalidated emails ->
  set_Forall prevalidated (add_email emails email).
Proof.
  intros H. unfold add_email.
  destruct (is_valid_email email) eqn:Hv; [|assumption].
  intros e [->%elem_of_singleton|He]%elem_of_union; [|now apply H].
  split.
  - now rewrite is_valid_email_lower.
  - apply lower_idem.
Qed.

Lemma add_obfuscated_prevalidated emails g :
  set_Forall prevalidated emails ->
  set_Forall prevalidated (add_obfuscated emails g).
Proof.
  intros H. unfold add_obfuscated.
  destruct g as [|local [|domain [|tld [|]]]]; try assumption.
  now apply add_email_prevalidated.
Qed.

Lemma extracted_emails_all_prevalidated text :
  set_Forall prevalidated (extract_contacts_from_text text).1.
Proof.
  unfold extract_contacts_from_text. cbn [fst].
  apply (foldl_invariant (set_Forall prevalidated)).
  - apply (foldl_invariant (set_Forall prevalidated)).
    + intros e He. now apply elem_of_empty in He.
    + intros; now apply add_email_prevalidated.
  - intros emails pattern H.
    apply (foldl_invariant (set_Forall prevalidated)); [assumption|].
    intros; now apply add_obfuscated_prevalidated.
Qed.

(** The phones kept by the loop over the matches of [phone_pattern]. *)
Lemma foldl_add_phone_elem p acc l :
  p ∈ foldl add_phone acc l <->
  p ∈ acc \/ (p ∈ l /\ 10 <= String.length (cleaned_phone p)).
Proof.
  revert acc. induction l as [|x l IH]; intros acc; simpl.
  - rewrite elem_of_nil. tauto.
  - rewrite IH, elem_of_cons. unfold add_phone.
    destruct (Nat.leb_spec 10 (String.length (cleaned_phone x))).
    + rewrite elem_of_union, elem_of_singleton. split.
      * intros [[->|?]|[? ?]]; auto.
      * intros [?|[[->|?] ?]]; auto.
    + split.
      * intros [?|[? ?]]; auto.
      * intros [?|[[->|?] ?]]; auto. lia.
Qed.

Lemma extracted_phone_elem text p :
  p ∈ (extract_contacts_from_text text).2 <->
  p ∈ Re.findall phone_pattern text /\ 10 <= String.length (cleaned_phone p).
Proof.
  unfold extract_contacts_from_text. cbn [snd].
  rewrite foldl_add_phone_elem, elem_of_empty. tauto.
Qed.

(** X1. The floor the extractor does enforce: every phone it returns has
    ten characters that are digits or plus signs. *)
Lemma extracted_phone_floor text p :
  p ∈ (extract_contacts_from_text text).2 ->
  10 <= String.length (cleaned_phone p).
Proof. intros H. now apply extracted_phone_elem in H. Qed.

Lemma extracted_phone_floor_witness :
  10 <= String.length (cleaned_phone "+49 1234567").
Proof.
  apply (extracted_phone_floor "Tel: +49 1234567" "+49 1234567").
  by_evaluation.
Defined.

End Extractor.

(** ** Claims about the validator and the extractor *)

Section ExtractorClaims.

Import EnhancedWebScraper.

(** C6. The validator's test vectors: [is_valid_email] rejects
    "info@example.com", whose domain is in [excluded_domains]; it accepts
    "j.smith@acme.co"; it rejects "noreply@acme.com"; it rejects the
    malformed "not-an-email", and candidates with nothing after the "@",
    by returning [False].  On every candidate the body returns: the
    [except] branch is never needed, and no error reaches the caller. *)
Theorem is_valid_email_test_vectors :
  is_valid_email "info@example.com" = false /\
  "example.com" ∈ excluded_domains /\
  is_valid_email "j.smith@acme.co" = true /\
  is_valid_email "noreply@acme.com" = false /\
  is_valid_email "not-an-email" = false /\
  is_valid_email "john@" = false /\
  is_valid_email "@" = false /\
  forall candidate,
    is_valid_email_body candidate = Returns (is_valid_email candidate).
Proof.
  split; [vm_compute; reflexivity|].
  split; [by_evaluation|].
  do 5 (split; [vm_compute; reflexivity|]).
  apply is_valid_email_body_returns.
Qed.

(** C7. Extraction round trip: on the text
    "Contact: john (at) acme (dot) com or call 555-123-4567" the extractor
    returns exactly the e-mail set {"john@acme.com"}, rebuilt from the
    (at)/(dot) form, and a phone whose digits are "5551234567". *)
Theorem extraction_round_trip :
  (extract_contacts_from_text
     "Contact: john (at) acme (dot) com or call 555-123-4567").1
  = {[ "john@acme.com" ]} /\
  exists phone,
    phone ∈ (extract_contacts_from_text
               "Contact: john (at) acme (dot) com or call 555-123-4567").2 /\
    digits_only phone = "5551234567".
Proof.
  split; [vm_compute; reflexivity|].
  exists "555-123-4567". split; [|reflexivity].
  by_evaluation.
Qed.

(** C2 (the code departs from the claim). On the text "Tel: +49 1234567"
    the extractor keeps the phone "+49 1234567", which has nine digits: the
    plus sign is counted by the floor of [extract_contacts_from_text],
    while the floor of the [tel:] links counts digits only and turns the
    same string down. *)
Theorem phone_floor_counts_plus_sign :
  "+49 1234567" ∈ (extract_contacts_from_text "Tel: +49 1234567").2 /\
  String.length (digits_only "+49 1234567") = 9 /\
  String.length (cleaned_phone "+49 1234567") = 10 /\
  add_tel_phone ∅ "+49 1234567" = ∅.
Proof.
  split; [by_evaluation|].
  do 2 (split; [vm_compute; reflexivity|]).
  vm_compute. reflexivity.
Qed.

(** C10. The extractor's e-mails are validated already: every e-mail of the
    returned set satisfies [is_valid_email] and is its own lowering, so
    filtering the set through the validator once more gives the set back. *)
Theorem extractor_output_prevalidated (text : string) :
  (forall e, e ∈ (extract_contacts_from_text text).1 ->
             is_valid_email e = true /\ Str.lower e = e) /\
  filter (fun e => is_valid_email e = true) (extract_contacts_from_text text).1
  = (extract_contacts_from_text text).1.
Proof.
  pose proof (extracted_emails_all_prevalidated text) as H.
  split; [exact H|].
  apply set_eq. intros e. rewrite elem_of_filter.
  split; [tauto|]. intros He. split; [|assumption]. now apply H.
Qed.

Lemma extractor_output_prevalidated_witness :
  is_valid_email "john@acme.com" = true /\
  Str.lower "john@acme.com" = "john@acme.com".
Proof.
  apply (proj1 (extractor_output_prevalidated
                  "Contact: john (at) acme (dot) com or call 555-123-4567")).
  by_evaluation.
Defined.

End ExtractorClaims.

(** ** The categorizer *)

Section CategorizerFacts.

Import Categorizer.

Lemma split_length sep s : length (Str.split sep s) = S (Str.count sep s).
Proof.
  induction s as [|c s IH]; simpl; [reflexivity|].
  destruct (Ascii.eqb c sep); simpl; [now rewrite IH|].
  pose proof (split_not_nil sep s).
  destruct (Str.split sep s); [contradiction|exact IH].
Qed.

Lemma contains_char_count x s :
  Str.contains_char x s = (0 <? Str.count x s).
Proof.
  induction s as [|c s IH]; simpl; [reflexivity|].
  destruct (Ascii.eqb c x); simpl; [reflexivity|exact IH].
Qed.

(** The personal test of the code asks for exactly one dot. *)
Lemma looks_personal_one_dot local :
  looks_personal local = (Str.count "." local =? 1).
Proof.
  unfold looks_personal. rewrite split_length, contains_char_count.
  destruct (Str.count "." local) as [|[|n]]; reflexivity.
Qed.

(** One e-mail alone ends up, alone, under its category. *)
Lemma categorize_single email :
  categorize_emails [email] = [(category_of email, [email])].
Proof.
  unfold categorize_emails. simpl foldl.
  destruct (category_of email); reflexivity.
Qed.

End CategorizerFacts.

Section CategorizerClaims.

Import Categorizer.

(** C1 (the code departs from the claim). The rule-groups are tried in the
    order executive, sales, support, hr, technical, marketing, finance,
    general, and "sales.hr@x.com", which the hr group would match too, is
    filed under sales, as claimed.  "john.smith@x.com" has the
    firstname.lastname shape the fallback tests for, but the fallback is
    not reached: the fragments are searched anywhere in the local part, and
    the technical fragment "it" - the only fragment of any group that
    occurs in "john.smith" - occurs in "smith".  The e-mail is filed under
    technical, not under personal; "john.doe@x.com", which holds no
    fragment, is filed under personal. *)
Theorem john_smith_filed_under_technical :
  List.map fst patterns
  = [executive; sales; support; hr; technical; marketing; finance; general] /\
  Re.search (Re.lit "hr") (local_part "sales.hr@x.com") = true /\
  categorize_emails ["sales.hr@x.com"] = [(sales, ["sales.hr@x.com"])] /\
  looks_personal (local_part "john.smith@x.com") = true /\
  List.filter (fun fragment => Re.search (Re.lit fragment)
                                         (local_part "john.smith@x.com"))
              (flat_map snd pattern_strings)
  = ["it"] /\
  matching_category (local_part "john.smith@x.com") = Some technical /\
  categorize_emails ["john.smith@x.com"]
  = [(technical, ["john.smith@x.com"])] /\
  categorize_emails ["john.smith@x.com"]
  <> [(personal, ["john.smith@x.com"])] /\
  categorize_emails ["john.doe@x.com"] = [(personal, ["john.doe@x.com"])].
Proof.
  do 7 (split; [vm_compute; reflexivity|]).
  split; [vm_compute; discriminate|vm_compute; reflexivity].
Qed.

End CategorizerClaims.

(** ** The report parser *)

Section ParserFacts.

Import ReportParser.

Lemma rstrip_idem s : Str.rstrip (Str.rstrip s) = Str.rstrip s.
Proof.
  induction s as [|c s IH]; simpl; [reflexivity|].
  destruct (Str.rstrip s) as [|d r] eqn:E.
  - destruct (Chars.space c) eqn:Hc; simpl; [reflexivity|now rewrite Hc].
  - change (Str.rstrip (String c (String d r)))
      with (match Str.rstrip (String d r) with
            | EmptyString =>
                if Chars.space c then EmptyString else String c EmptyString
            | x => String c x
            end).
    now rewrite IH.
Qed.

Lemma lstrip_cases s :
  Str.lstrip s = EmptyString \/
  exists c r, Str.lstrip s = String c r /\ Chars.space c = false.
Proof.
  induction s as [|c s IH]; simpl; [now left|].
  destruct (Chars.space c) eqn:Hc; [exact IH|right; eauto].
Qed.

Lemma rstrip_keeps_head c r :
  Chars.space c = false -> exists r', Str.rstrip (String c r) = String c r'.
Proof.
  intros Hc. simpl. destruct (Str.rstrip r); [rewrite Hc|]; eauto.
Qed.

Lemma strip_idem s : Str.strip (Str.strip s) = Str.strip s.
Proof.
  unfold Str.strip.
  destruct (lstrip_cases s) as [->|(c & r & -> & Hc)]; [reflexivity|].
  destruct (rstrip_keeps_head c r Hc) as [r' Hr].
  rewrite <- (rstrip_idem (String c r)) at 2. f_equal.
  rewrite Hr. simpl. now rewrite Hc.
Qed.

(** [fit] always yields the header's width. *)
Lemma fit_length n cells : length (fit n cells) = n.
Proof.
  unfold fit.
  destruct (Nat.ltb_spec n
              (length (cells ++ repeat EmptyString (n - length cells))))
    as [H|H].
  - rewrite length_firstn. lia.
  - rewrite length_app, repeat_length in *. lia.
Qed.

Lemma fit_short n cells :
  length cells <= n ->
  fit n cells = cells ++ repeat EmptyString (n - length cells).
Proof.
  intros H. unfold fit.
  destruct (Nat.ltb_spec n
              (length (cells ++ repeat EmptyString (n - length cells))))
    as [H'|H']; [|reflexivity].
  rewrite length_app, repeat_length in H'. lia.
Qed.

Lemma fit_long n cells : n <= length cells -> fit n cells = firstn n cells.
Proof.
  intros H. unfold fit.
  replace (n - length cells) with 0 by lia. simpl. rewrite app_nil_r.
  destruct (Nat.ltb_spec n (length cells)) as [H'|H']; [reflexivity|].
  symmetry. apply firstn_all2. lia.
Qed.

Lemma foldl_add_row n rows lines :
  foldl (add_row n) rows lines = rows ++ kept_rows n lines.
Proof.
  revert rows. induction lines as [|line lines IH]; intros rows; simpl.
  - now rewrite app_nil_r.
  - rewrite IH. unfold add_row, kept_rows. simpl.
    destruct (meaningful (fit n (trimmed_cells line))); [|reflexivity].
    now rewrite <- app_assoc.
Qed.

Lemma kept_rows_width n lines :
  forallb (fun row => length row =? n) (kept_rows n lines) = true.
Proof.
  apply forallb_forall. intros row Hrow.
  apply filter_In in Hrow as [Hrow _].
  apply in_map_iff in Hrow as (line & <- & _).
  apply Nat.eqb_eq, fit_length.
Qed.

(** The body of [parse_markdown_table] returns on every text, and returns
    [parsed]. *)
Lemma parse_markdown_table_body_returns text :
  parse_markdown_table_body text = Returns (parsed text).
Proof.
  unfold parse_markdown_table_body, parsed.
  destruct (table_lines text) as [|first [|line lines]]; try reflexivity.
  cbn [length Nat.ltb Nat.leb index nth_error mbind outcome_bind skipn].
  destruct (header_cells first) as [|h hs] eqn:Hh; [reflexivity|].
  cbn [nonempty negb andb]. rewrite foldl_add_row. cbn [app].
  destruct (kept_rows _ _) as [|row rows] eqn:Hr; [reflexivity|].
  cbn [nonempty negb]. unfold make_DataFrame.
  rewrite <- Hr, kept_rows_width. reflexivity.
Qed.

Lemma parse_markdown_table_parsed text :
  parse_markdown_table text = parsed text.
Proof.
  unfold parse_markdown_table. now rewrite parse_markdown_table_body_returns.
Qed.

End ParserFacts.

Section ParserRows.

Import ReportParser.

Lemma truthy_false s : Str.truthy s = false <-> s = EmptyString.
Proof. destruct s; simpl; split; congruence. Qed.

Lemma pop_front_empty_nil cells :
  pop_front_empty cells = [] <-> Forall (fun c => c = EmptyString) cells.
Proof.
  induction cells as [|c cells IH]; simpl.
  - split; [constructor|reflexivity].
  - destruct c as [|a c]; simpl.
    + rewrite IH. split; [now constructor|now inversion 1].
    + split; [discriminate|now inversion 1].
Qed.

Lemma pop_front_empty_head cells c r :
  pop_front_empty cells = c :: r -> Str.truthy c = true /\ In c cells.
Proof.
  induction cells as [|x cells IH]; simpl; [discriminate|].
  destruct (Str.truthy x) eqn:Hx.
  - intros [= <- <-]. auto.
  - intros H. destruct (IH H). auto.
Qed.

Lemma pop_back_empty_head c r :
  Str.truthy c = true -> exists r', pop_back_empty (c :: r) = c :: r'.
Proof.
  intros Hc. simpl. destruct (pop_back_empty r); [rewrite Hc|]; eauto.
Qed.

(** After trimming, a row is empty or starts with a non-empty, stripped
    cell. *)
Lemma trimmed_cells_cases line :
  trimmed_cells line = [] \/
  exists c r, trimmed_cells line = c :: r /\ Str.truthy (Str.strip c) = true.
Proof.
  unfold trimmed_cells.
  destruct (pop_front_empty _) as [|c r] eqn:E; [now left|right].
  apply pop_front_empty_head in E as [Hc Hin].
  destruct (pop_back_empty_head c r Hc) as [r' ->].
  exists c, r'. split; [reflexivity|].
  apply in_map_iff in Hin as (x & <- & _). now rewrite strip_idem.
Qed.

(** A row trims to nothing exactly when all its cells are blank. *)
Lemma trimmed_cells_nil line :
  trimmed_cells line = [] <->
  Forall (fun cell => Str.strip cell = EmptyString) (Str.split "|" line).
Proof.
  unfold trimmed_cells.
  rewrite <- (List.Forall_map Str.strip (fun c => c = EmptyString)).
  rewrite <- pop_front_empty_nil.
  destruct (pop_front_empty _) as [|c r] eqn:E; [tauto|].
  apply pop_front_empty_head in E as [Hc _].
  destruct (pop_back_empty_head c r Hc) as [r' ->].
  split; discriminate.
Qed.

Lemma meaningful_blank n : meaningful (repeat EmptyString n) = false.
Proof. induction n; simpl; auto. Qed.

(** With a header of at least one cell, the rows dropped are the rows that
    trim to nothing. *)
Lemma meaningful_fit n line :
  0 < n -> meaningful (fit n (trimmed_cells line)) = nonempty (trimmed_cells line).
Proof.
  intros Hn. destruct (trimmed_cells_cases line) as [->|(c & r & -> & Hc)].
  - rewrite fit_short by (simpl; lia). apply meaningful_blank.
  - destruct (Nat.le_gt_cases (length (c :: r)) n) as [H|H].
    + rewrite fit_short by exact H. simpl. now rewrite Hc.
    + rewrite fit_long by lia. destruct n; [lia|]. simpl. now rewrite Hc.
Qed.

Lemma kept_rows_alt n lines :
  0 < n ->
  kept_rows n lines
  = List.map (fun line => fit n (trimmed_cells line))
      (List.filter (fun line => nonempty (trimmed_cells line)) lines).
Proof.
  intros Hn. unfold kept_rows.
  induction lines as [|line lines IH]; simpl; [reflexivity|].
  rewrite meaningful_fit by exact Hn.
  destruct (nonempty (trimmed_cells line)); simpl; now rewrite IH.
Qed.


End ParserRows.

Section ParserClaims.

Import ReportParser.



(** The rows of a parsed table with [n] header cells, in closed form: in
    order, the table lines after the header that do not trim to nothing,
    each trimmed of its empty cells at both ends and fitted to [n] cells,
    padded with empty strings when shorter and cut to the first [n] cells
    when longer.  In [sample_table] the row that is one cell short appears
    padded. *)
Lemma parsed_rows_closed_form :
  (forall text df,
     parse_markdown_table text = Some df ->
     let n := length (columns df) in
     0 < n /\
     columns df = header_cells (hd EmptyString (table_lines text)) /\
     data df
     = List.map (fun line => fit n (trimmed_cells line))
         (List.filter (fun line => nonempty (trimmed_cells line))
                      (skipn 1 (table_lines text))) /\
     Forall (fun row => length row = n) (data df)) /\
  (forall n cells,
     length cells <= n ->
     fit n cells = cells ++ repeat EmptyString (n - length cells)) /\
  (forall n cells, n <= length cells -> fit n cells = firstn n cells) /\
  (forall line,
     trimmed_cells line = [] <->
     Forall (fun cell => Str.strip cell = EmptyString) (Str.split "|" line)) /\
  parse_markdown_table sample_table = Some sample_frame.
Proof.
  split; [|split; [exact fit_short|split; [exact fit_long|
           split; [exact trimmed_cells_nil|vm_compute; reflexivity]]]].
  intros text df. rewrite parse_markdown_table_parsed. unfold parsed.
  destruct (table_lines text) as [|first [|line lines]]; try discriminate.
  destruct (header_cells first) as [|h hs] eqn:Hh; [discriminate|].
  cbn [nonempty andb].
  destruct (kept_rows _ _) as [|row rows] eqn:Hr; [discriminate|].
  intros [= <-]. cbn [columns data hd skipn].
  split; [simpl; lia|]. split; [now rewrite Hh|].
  rewrite <- Hr. split.
  - apply kept_rows_alt. simpl; lia.
  - apply List.Forall_forall. intros row' Hrow.
    apply filter_In in Hrow as [Hrow _].
    apply in_map_iff in Hrow as (l & <- & _). apply fit_length.
Qed.

(** C9 (the code departs from the claim). The trimming loop removes every
    empty cell at the start of a row, not only the one the outer pipe
    leaves, so a row written with an empty first column loses it and its
    cells move one column to the left before the row is padded: in the
    prompt's own example output the record without a name comes out with
    its role under Name, its e-mail under Role and its phone under Email,
    and the e-mails read off the Email column miss "info@acme.co", which
    the validator accepts.  The line filter takes the three characters
    "---" anywhere in a line for a divider: a row with non-empty cells one
    of which holds "---" is dropped, and the divider "|--|--|" is kept as a
    record. *)
Theorem empty_first_cell_moves_row :
  parse_markdown_table example_output = Some example_frame /\
  trimmed_cells
    "| | General Contact | info@acme.co | +1-555-0100 | | Website Contact Page | High |"
  = ["General Contact"; "info@acme.co"; "+1-555-0100"; "";
     "Website Contact Page"; "High"] /\
  AiResearch.column_cells example_frame "Email"
  = ["j.smith@acme.co"; "+1-555-0100"; "hr@acme.co"] /\
  EnhancedWebScraper.is_valid_email "info@acme.co" = true /\
  AiResearch.ai_emails example_frame = {[ "j.smith@acme.co"; "hr@acme.co" ]} /\
  ("info@acme.co" ∉ AiResearch.ai_emails example_frame) /\
  parse_markdown_table
    (Str.join (String newline EmptyString)
       [ "| Name | Role | Email |"; "| | General Contact | info@acme.co |" ])
  = Some {| columns := ["Name"; "Role"; "Email"];
            data := [ ["General Contact"; "info@acme.co"; ""] ] |} /\
  parse_markdown_table
    (Str.join (String newline EmptyString)
       [ "| Name | Note |"; "| Bob | n/a --- see web |"; "| Cy | ok |" ])
  = Some {| columns := ["Name"; "Note"]; data := [ ["Cy"; "ok"] ] |} /\
  parse_markdown_table
    (Str.join (String newline EmptyString) [ "| Name | Email |"; "|--|--|" ])
  = Some {| columns := ["Name"; "Email"]; data := [ ["--"; "--"] ] |}.
Proof.
  do 4 (split; [vm_compute; reflexivity|]).
  split; [by_evaluation|]. split; [by_evaluation|].
  do 2 (split; [vm_compute; reflexivity|]). vm_compute. reflexivity.
Qed.

End ParserClaims.

(** ** The bookkeeping of [main] *)

Section MainFacts.

Import Categorizer Main.

Lemma all_emails_foldl r srcs e :
  e ∈ all_emails (foldl merge r srcs) <->
  e ∈ all_emails r \/ exists s, s ∈ srcs /\ e ∈ src_emails s.
Proof.
  revert r. induction srcs as [|s srcs IH]; intros r; simpl.
  - split; [auto|]. intros [?|(s & Hs & _)]; [assumption|].
    now apply elem_of_nil in Hs.
  - rewrite IH. simpl. rewrite elem_of_union. split.
    + intros [[?|?]|(s' & Hs' & ?)]; [auto|right..].
      * exists s. split; [apply elem_of_cons; auto|assumption].
      * exists s'. split; [apply elem_of_cons; auto|assumption].
    + intros [?|(s' & [->|Hs']%elem_of_cons & ?)]; eauto.
Qed.

Lemma all_phones_foldl r srcs p :
  p ∈ all_phones (foldl merge r srcs) <->
  p ∈ all_phones r \/ exists s, s ∈ srcs /\ p ∈ src_phones s.
Proof.
  revert r. induction srcs as [|s srcs IH]; intros r; simpl.
  - split; [auto|]. intros [?|(s & Hs & _)]; [assumption|].
    now apply elem_of_nil in Hs.
  - rewrite IH. simpl. rewrite elem_of_union. split.
    + intros [[?|?]|(s' & Hs' & ?)]; [auto|right..].
      * exists s. split; [apply elem_of_cons; auto|assumption].
      * exists s'. split; [apply elem_of_cons; auto|assumption].
    + intros [?|(s' & [->|Hs']%elem_of_cons & ?)]; eauto.
Qed.

(** Assigning to a key the dictionary does not have appends the entry. *)
Lemma dict_set_fresh key value d :
  key ∉ List.map fst d -> dict_set key value d = d ++ [(key, value)].
Proof.
  induction d as [|[k v] d IH]; simpl; intros Hfresh; [reflexivity|].
  rewrite not_elem_of_cons in Hfresh. destruct Hfresh as [Hk Hd].
  destruct (decide (k = key)); [congruence|]. now rewrite IH.
Qed.

(** Assigning the same value to the same key twice is assigning it once. *)
Lemma dict_set_twice key value d :
  dict_set key value (dict_set key value d) = dict_set key value d.
Proof.
  induction d as [|[k v] d IH]; simpl.
  - now destruct (decide (key = key)).
  - destruct (decide (k = key)) as [->|Hk]; simpl.
    + now destruct (decide (key = key)).
    + destruct (decide (k = key)); [contradiction|]. now rewrite IH.
Qed.

(** With pairwise different keys, each source adds its own entry. *)
Lemma method_results_foldl r srcs :
  NoDup (List.map fst (method_results r) ++ List.map sourceId srcs) ->
  method_results (foldl merge r srcs)
  = method_results r ++ List.map (fun s => (sourceId s, src_emails s)) srcs.
Proof.
  revert r. induction srcs as [|s srcs IH]; intros r Hnd; simpl.
  - now rewrite app_nil_r.
  - assert (Hfresh : sourceId s ∉ List.map fst (method_results r)).
    { intros Hin. apply NoDup_app in Hnd as (_ & Hdisj & _).
      apply (Hdisj _ Hin). simpl. apply elem_of_cons. now left. }
    rewrite IH; simpl; rewrite (dict_set_fresh _ _ _ Hfresh).
    + now rewrite <- app_assoc.
    + rewrite map_app. simpl. rewrite <- app_assoc. exact Hnd.
Qed.

Lemma found_by_methods_elem m e d :
  m ∈ found_by_methods e d <-> exists es, (m, es) ∈ d /\ e ∈ es.
Proof.
  unfold found_by_methods. rewrite list_elem_of_In, in_map_iff. split.
  - intros ([m' es] & <- & [Hin He]%filter_In). exists es.
    split; [now apply list_elem_of_In|]. now apply bool_decide_eq_true in He.
  - intros (es & Hin & He). exists (m, es). split; [reflexivity|].
    apply filter_In. split; [now apply list_elem_of_In|].
    now apply bool_decide_eq_true.
Qed.

Lemma provenance_elem r v m :
  m ∈ provenance r v <-> exists es, (m, es) ∈ method_results r /\ v ∈ es.
Proof.
  unfold provenance. now rewrite elem_of_list_to_set, found_by_methods_elem.
Qed.

(** The dictionary of categories after the loop, in closed form. *)
Lemma categorize_loop emails cats :
  foldl (fun cats email => append_to (category_of email) email cats)
        cats emails
  = List.map (fun '(c, l) =>
                (c, l ++ List.filter
                           (fun e => bool_decide (category_of e = c)) emails))
             cats.
Proof.
  revert cats. induction emails as [|e emails IH]; intros cats; simpl.
  - induction cats as [|[c l] cats IHc]; simpl; [reflexivity|].
    now rewrite app_nil_r, <- IHc.
  - rewrite IH. unfold append_to. rewrite map_map.
    apply map_ext. intros [c l].
    destruct (decide (c = category_of e)) as [->|Hc].
    + rewrite bool_decide_eq_true_2 by reflexivity.
      now rewrite <- app_assoc.
    + rewrite bool_decide_eq_false_2 by congruence. reflexivity.
Qed.

(** An e-mail is listed under a category exactly when it was given and the
    category is its own. *)
Lemma categorize_emails_elem emails c e :
  (exists l, In (c, l) (categorize_emails emails) /\ In e l) <->
  In e emails /\ category_of e = c.
Proof.
  unfold categorize_emails. rewrite categorize_loop. split.
  - intros (l & [Hin _]%filter_In & He).
    apply in_map_iff in Hin as ([c' l'] & [= <- <-] & Hc').
    assert (l' = []) as -> by
      (unfold categories in Hc'; simpl in Hc';
       repeat destruct Hc' as [[= _ <-]|Hc']; try reflexivity; contradiction).
    simpl in He. apply filter_In in He as [? He].
    now apply bool_decide_eq_true in He.
  - intros [He <-].
    exists (List.filter (fun e' => bool_decide (category_of e' = category_of e))
                        emails).
    assert (Hl : In e (List.filter
                         (fun e' => bool_decide (category_of e' = category_of e))
                         emails)).
    { apply filter_In. split; [assumption|]. now apply bool_decide_eq_true. }
    split; [|exact Hl].
    apply filter_In. split.
    + apply in_map_iff. exists (category_of e, []). split; [reflexivity|].
      unfold categories. destruct (category_of e); simpl; tauto.
    + destruct (List.filter _ emails); [contradiction|reflexivity].
Qed.

(** X2. The sources [main] takes in have pairwise different identifiers:
    each research method writes its own key of [method_results], and runs
    once. *)
Lemma research_sources_distinct c : NoDup (List.map sourceId (sources c)).
Proof.
  unfold sources, whois_source, contact_source, ai_source.
  destruct (whois_emails c), (scraping_results c) as [[e1 p1]|],
    (web_results c) as [[e2 p2]|], (ai_emails c);
    repeat match goal with
           | |- context [if ?b then _ else _] => destruct b
           end;
    simpl; by_evaluation.
Qed.

(** The keys written during one run are keys of the four methods, in the
    order in which [main] runs them. *)
Lemma sources_keys c :
  sublist (List.map sourceId (sources c))
          ["whois"; "website_scraping"; "web_search"; "ai_research"].
Proof.
  unfold sources, whois_source, contact_source, ai_source.
  destruct (whois_emails c), (scraping_results c) as [[e1 p1]|],
    (web_results c) as [[e2 p2]|], (ai_emails c);
    repeat match goal with
           | |- context [if ?b then _ else _] => destruct b
           end;
    simpl;
    repeat first [apply sublist_nil | apply sublist_skip | apply sublist_cons].
Qed.

Lemma sources_keys_differ c : NoDup (List.map sourceId (sources c)).
Proof.
  eapply sublist_NoDup; [|apply sources_keys]. by_evaluation.
Qed.

(** Two results taken in during one run are the same result or carry
    different keys. *)
Lemma sources_same_or_apart c A B :
  A ∈ sources c -> B ∈ sources c -> A = B \/ sourceId A <> sourceId B.
Proof.
  pose proof (sources_keys_differ c) as Hnd.
  induction (sources c) as [|s srcs IH]; intros HA HB.
  - now apply elem_of_nil in HA.
  - simpl in Hnd. apply NoDup_cons in Hnd as [Hs Hnd].
    apply elem_of_cons in HA as [->|HA], HB as [->|HB].
    + now left.
    + right. intros Heq. apply Hs. rewrite Heq.
      now apply list_elem_of_In, in_map, list_elem_of_In.
    + right. intros Heq. apply Hs. rewrite <- Heq.
      now apply list_elem_of_In, in_map, list_elem_of_In.
    + now apply IH.
Qed.

(** With pairwise different keys, the sources recorded for a value are the
    sources whose e-mail set holds it. *)
Lemma provenance_foldl srcs v m :
  NoDup (List.map sourceId srcs) ->
  m ∈ provenance (foldl merge no_results srcs) v <->
  exists s, s ∈ srcs /\ sourceId s = m /\ v ∈ src_emails s.
Proof.
  intros Hnd. rewrite provenance_elem, method_results_foldl by exact Hnd.
  simpl. split.
  - intros (es & Hin & Hv). apply list_elem_of_In, in_map_iff in Hin.
    destruct Hin as (s & [= <- <-] & Hs).
    exists s. repeat split; [now apply list_elem_of_In|assumption].
  - intros (s & Hs & <- & Hv). exists (src_emails s).
    split; [|assumption]. apply list_elem_of_In, in_map_iff.
    exists s. split; [reflexivity|now apply list_elem_of_In].
Qed.

(** In a dictionary, a key has the value of its entry. *)
Lemma dict_get_elem key value d :
  NoDup (List.map fst d) ->
  dict_get key d = Some value <-> (key, value) ∈ d.
Proof.
  induction d as [|[k v] d IH]; simpl; intros Hnd.
  - split; [discriminate|]. intros H. now apply elem_of_nil in H.
  - apply NoDup_cons in Hnd as [Hk Hnd]. rewrite elem_of_cons.
    destruct (decide (k = key)) as [->|Hne].
    + split; [intros [= ->]; now left|].
      intros [[= ->]|Hin]; [reflexivity|].
      exfalso. apply Hk.
      now apply list_elem_of_In, (in_map fst _ (key, value)), list_elem_of_In.
    + rewrite (IH Hnd). split; [now right|].
      intros [[= -> ->]|Hin]; [contradiction|assumption].
Qed.

(** Results with pairwise different keys can be taken in, from nothing, in
    any order: the e-mails, the phones, the provenance and the value of
    every key of [method_results] come out the same. *)
Lemma merge_any_order srcs srcs' :
  NoDup (List.map sourceId srcs) -> srcs ≡ₚ srcs' ->
  same_results (foldl merge no_results srcs) (foldl merge no_results srcs') /\
  forall key,
    dict_get key (method_results (foldl merge no_results srcs))
    = dict_get key (method_results (foldl merge no_results srcs')).
Proof.
  intros Hnd Hperm.
  assert (Hnd' : NoDup (List.map sourceId srcs')).
  { now rewrite <- (Permutation_map sourceId Hperm). }
  assert (Hin : forall s, s ∈ srcs <-> s ∈ srcs')
    by (intros s; now rewrite Hperm).
  split; [split; [|split]|].
  - apply set_eq. intros e. rewrite !all_emails_foldl.
    split; intros [?|(s & Hs & ?)]; auto; right; exists s;
      (split; [now apply Hin|assumption]).
  - apply set_eq. intros e. rewrite !all_phones_foldl.
    split; intros [?|(s & Hs & ?)]; auto; right; exists s;
      (split; [now apply Hin|assumption]).
  - intros v. apply set_eq. intros m.
    rewrite !provenance_foldl by assumption.
    split; intros (s & Hs & ?); exists s; (split; [now apply Hin|assumption]).
  - intros key.
    rewrite !method_results_foldl by assumption. simpl.
    set (entry := fun s : SourceResult => (sourceId s, src_emails s)).
    assert (Hkeys : forall l, List.map fst (List.map entry l)
                              = List.map sourceId l)
      by (intros l; rewrite map_map; reflexivity).
    assert (Hmem : forall kv, kv ∈ List.map entry srcs
                              <-> kv ∈ List.map entry srcs').
    { intros kv. rewrite !list_elem_of_In, !in_map_iff.
      split; intros (s & ? & Hs); exists s; (split; [assumption|]);
        now apply list_elem_of_In, Hin, list_elem_of_In. }
    destruct (dict_get key (List.map entry srcs)) as [v|] eqn:E.
    + symmetry. apply dict_get_elem; [now rewrite Hkeys|].
      apply Hmem. apply dict_get_elem in E; [exact E|now rewrite Hkeys].
    + destruct (dict_get key (List.map entry srcs')) as [v|] eqn:E';
        [|reflexivity].
      apply dict_get_elem in E'; [|now rewrite Hkeys].
      apply Hmem, dict_get_elem in E'; [|now rewrite Hkeys]. congruence.
Qed.

(** Taking the same result in twice is taking it in once. *)
Lemma merge_twice R S : merge (merge R S) S = merge R S.
Proof.
  unfold merge. simpl. rewrite dict_set_twice.
  now rewrite <- !(assoc_L (∪)), !(idemp_L (∪)).
Qed.

End MainFacts.

Section ExportFacts.

Import Categorizer Main.

Lemma email_rows_elem r row :
  row ∈ email_rows r <->
  exists e, e ∈ all_emails r /\ row = email_row r (category_of e) e.
Proof.
  unfold email_rows.
  destruct (elements (all_emails r)) as [|e0 es] eqn:E.
  - simpl. rewrite elem_of_nil. split; [contradiction|].
    intros (e & He%elem_of_elements & _). rewrite E in He.
    now apply elem_of_nil in He.
  - cbn [nonempty]. rewrite <- E. clear E e0 es.
    rewrite list_elem_of_In, in_flat_map. split.
    + intros ([c l] & Hcl & Hrow). apply in_map_iff in Hrow as (e & <- & He).
      destruct (proj1 (categorize_emails_elem
                         (elements (all_emails r)) c e)) as [Hin <-];
        [eauto|].
      exists e. split; [|reflexivity].
      now apply elem_of_elements, list_elem_of_In.
    + intros (e & He & ->).
      destruct (proj2 (categorize_emails_elem (elements (all_emails r))
                         (category_of e) e)) as (l & Hcl & Hl).
      { split; [|reflexivity]. now apply list_elem_of_In, elem_of_elements. }
      exists (category_of e, l). split; [exact Hcl|].
      apply in_map_iff. eauto.
Qed.

Lemma phone_rows_elem r row :
  row ∈ phone_rows r <-> exists p, p ∈ all_phones r /\ row = phone_row p.
Proof.
  unfold phone_rows.
  destruct (elements (all_phones r)) as [|p0 ps] eqn:E.
  - simpl. rewrite elem_of_nil. split; [contradiction|].
    intros (p & Hp%elem_of_elements & _). rewrite E in Hp.
    now apply elem_of_nil in Hp.
  - cbn [nonempty]. rewrite <- E. clear E p0 ps.
    rewrite list_elem_of_In, in_map_iff. split.
    + intros (p & <- & Hp). exists p. split; [|reflexivity].
      now apply elem_of_elements, list_elem_of_In.
    + intros (p & Hp & ->). exists p. split; [reflexivity|].
      now apply list_elem_of_In, elem_of_elements.
Qed.

End ExportFacts.

Section MainClaims.

Import EnhancedWebScraper Categorizer Main.

(** C3, as stated, fails: the scrape of a text that writes one number as
    "555-123-4567" and as "555.123.4567" brings both strings into
    [all_phones], though their digit keys are equal. *)
Lemma phones_not_merged_by_digit_key :
  ~ merged_by_digit_key
      (all_phones
         (merge no_results
            {| sourceId := "website_scraping";
               src_emails := ∅;
               src_phones :=
                 (extract_contacts_from_text
                    "Call 555-123-4567 or 555.123.4567").2 |})).
Proof.
  intros H.
  specialize (H "555-123-4567" "555.123.4567").
  discriminate H; [by_evaluation|by_evaluation|reflexivity].
Qed.

(** C3, amended. Phones are kept as found and told apart by their exact
    text: the extractor returns the matches of [phone_pattern] that pass
    its length floor, the phones collected over any sources are exactly
    the strings some source returned, and each is held once. *)
Theorem phones_merged_by_exact_text :
  (forall text p,
     p ∈ (extract_contacts_from_text text).2 <->
     p ∈ Re.findall phone_pattern text /\
     10 <= String.length (cleaned_phone p)) /\
  (forall r srcs p,
     p ∈ all_phones (foldl merge r srcs) <->
     p ∈ all_phones r \/ exists s, s ∈ srcs /\ p ∈ src_phones s) /\
  (forall r, NoDup (elements (all_phones r))).
Proof.
  split; [exact extracted_phone_elem|].
  split; [exact all_phones_foldl|].
  intros r. apply NoDup_elements.
Qed.

(** C4, as stated, fails for phones: a scrape that found one phone leaves
    it in [all_phones] with no source recorded for it, and its export
    record carries the fixed text "multi-source". *)
Lemma phone_has_no_provenance :
  ~ provenance_complete
      (foldl merge no_results
         [ {| sourceId := "website_scraping";
              src_emails := ∅;
              src_phones := {[ "555-123-4567" ]} |} ]) /\
  List.map Found_By
    (export_data
       (foldl merge no_results
          [ {| sourceId := "website_scraping";
               src_emails := ∅;
               src_phones := {[ "555-123-4567" ]} |} ]))
  = ["multi-source"].
Proof.
  split; [|vm_compute; reflexivity].
  intros H. apply (H "555-123-4567"); [by_evaluation|].
  vm_compute. reflexivity.
Qed.

(** C4, amended. Provenance is kept for e-mails only. When the sources
    folded have pairwise different identifiers, the sources recorded for a
    value are exactly the sources whose e-mail set holds it, so every
    collected e-mail has at least one; the export holds one record per
    collected e-mail, whose [Found_By] joins its recorded sources, and one
    record per collected phone, whose [Found_By] is "multi-source". *)
Theorem provenance_of_emails (srcs : list SourceResult)
    (Hids : NoDup (List.map sourceId srcs)) :
  let r := foldl merge no_results srcs in
  (forall v m,
     m ∈ provenance r v <->
     exists s, s ∈ srcs /\ sourceId s = m /\ v ∈ src_emails s) /\
  (forall e, e ∈ all_emails r -> provenance r e <> ∅) /\
  (forall row,
     row ∈ export_data r <->
     (exists e, e ∈ all_emails r /\ row = email_row r (category_of e) e) \/
     (exists p, p ∈ all_phones r /\ row = phone_row p)) /\
  (forall c e,
     Found_By (email_row r c e)
     = Str.join ", " (found_by_methods e (method_results r)) /\
     list_to_set (found_by_methods e (method_results r)) = provenance r e) /\
  (forall p, Found_By (phone_row p) = "multi-source").
Proof.
  intros r.
  assert (Hmr : method_results r
                = List.map (fun s => (sourceId s, src_emails s)) srcs).
  { unfold r. now rewrite method_results_foldl. }
  assert (Hprov : forall v m,
            m ∈ provenance r v <->
            exists s, s ∈ srcs /\ sourceId s = m /\ v ∈ src_emails s).
  { intros v m. rewrite provenance_elem, Hmr. split.
    - intros (es & Hin & Hv). apply list_elem_of_In, in_map_iff in Hin.
      destruct Hin as (s & [= <- <-] & Hs).
      exists s. repeat split; [now apply list_elem_of_In|assumption].
    - intros (s & Hs & <- & Hv). exists (src_emails s).
      split; [|assumption]. apply list_elem_of_In, in_map_iff.
      exists s. split; [reflexivity|now apply list_elem_of_In]. }
  split; [exact Hprov|]. split.
  { intros e He Hempty. unfold r in He.
    apply all_emails_foldl in He as [He|(s & Hs & He)].
    - now apply elem_of_empty in He.
    - assert (Hm : sourceId s ∈ provenance r e) by (apply Hprov; eauto).
      rewrite Hempty in Hm. now apply elem_of_empty in Hm. }
  split.
  { intros row. unfold export_data.
    now rewrite elem_of_app, email_rows_elem, phone_rows_elem. }
  split; [intros c e; split; reflexivity|reflexivity].
Qed.

Lemma provenance_of_emails_witness :
  provenance
    (foldl merge no_results
       [ {| sourceId := "whois"; src_emails := {[ "owner@acme.co" ]};
            src_phones := ∅ |};
         {| sourceId := "website_scraping";
            src_emails := {[ "owner@acme.co"; "jane.roe@acme.co" ]};
            src_phones := {[ "555-123-4567" ]} |} ])
    "owner@acme.co"
  <> ∅.
Proof.
  apply (provenance_of_emails
           [ {| sourceId := "whois"; src_emails := {[ "owner@acme.co" ]};
                src_phones := ∅ |};
             {| sourceId := "website_scraping";
                src_emails := {[ "owner@acme.co"; "jane.roe@acme.co" ]};
                src_phones := {[ "555-123-4567" ]} |} ]).
  - by_evaluation.
  - by_evaluation.
Defined.

(** C5. Taking source results in is commutative and idempotent. Any two
    results [main] takes in during a run, taken in from nothing in either
    order, give the same e-mails, phones and provenance, and the same value
    for every key of [method_results]; the results of a run taken in in any
    order give what the run collects; the same holds of any source results
    with different identifiers, which those of a run always have; and
    taking the same source result in twice gives the very result of taking
    it in once, whatever was collected before. *)
Theorem merge_commutative_idempotent (c : Collected) (A B : SourceResult)
    (HA : A ∈ sources c) (HB : B ∈ sources c) :
  same_results (merge (merge no_results A) B) (merge (merge no_results B) A) /\
  (forall key,
     dict_get key (method_results (merge (merge no_results A) B))
     = dict_get key (method_results (merge (merge no_results B) A))) /\
  (forall order,
     order ≡ₚ sources c ->
     same_results (foldl merge no_results order) (research c) /\
     forall key,
       dict_get key (method_results (foldl merge no_results order))
       = dict_get key (method_results (research c))) /\
  (forall A' B',
     sourceId A' <> sourceId B' ->
     same_results (merge (merge no_results A') B')
                  (merge (merge no_results B') A') /\
     forall key,
       dict_get key (method_results (merge (merge no_results A') B'))
       = dict_get key (method_results (merge (merge no_results B') A'))) /\
  (forall srcs srcs',
     NoDup (List.map sourceId srcs) -> srcs ≡ₚ srcs' ->
     same_results (foldl merge no_results srcs)
                  (foldl merge no_results srcs')) /\
  (forall R S, merge (merge R S) S = merge R S).
Proof.
  assert (Hswap : forall A' B',
            sourceId A' <> sourceId B' ->
            same_results (merge (merge no_results A') B')
                         (merge (merge no_results B') A') /\
            forall key,
              dict_get key (method_results (merge (merge no_results A') B'))
              = dict_get key (method_results (merge (merge no_results B') A'))).
  { intros A' B' Hids. apply (merge_any_order [A'; B'] [B'; A']).
    - apply NoDup_cons. split; [|apply NoDup_singleton].
      intros Hin. now apply list_elem_of_singleton in Hin.
    - apply perm_swap. }
  assert (HAB : same_results (merge (merge no_results A) B)
                             (merge (merge no_results B) A) /\
                forall key,
                  dict_get key (method_results (merge (merge no_results A) B))
                  = dict_get key (method_results (merge (merge no_results B) A))).
  { destruct (sources_same_or_apart c A B HA HB) as [->|Hids];
      [|now apply Hswap].
    split; [split; [|split]|]; reflexivity. }
  split; [exact (proj1 HAB)|]. split; [exact (proj2 HAB)|].
  split.
  { intros order Hperm. apply merge_any_order; [|exact Hperm].
    rewrite (Permutation_map sourceId Hperm). apply sources_keys_differ. }
  split; [exact Hswap|].
  split; [|exact merge_twice].
  intros srcs srcs' Hnd Hperm. now apply merge_any_order.
Qed.

Lemma merge_commutative_idempotent_witness :
  same_results (merge (merge no_results sample_whois) sample_scrape)
               (merge (merge no_results sample_scrape) sample_whois).
Proof.
  refine (proj1 (merge_commutative_idempotent
                   sample_run sample_whois sample_scrape _ _)).
  - apply elem_of_cons. left. reflexivity.
  - apply elem_of_cons. right. apply elem_of_cons. left. reflexivity.
Defined.

End MainClaims.

(** ** Strings under concatenation *)

Section AppendFacts.

Lemma app_cons c s t : String c s +:+ t = String c (s +:+ t).
Proof. reflexivity. Qed.

Lemma app_empty_r s : s +:+ EmptyString = s.
Proof. induction s as [|c s IH]; [reflexivity|]. now rewrite app_cons, IH. Qed.

Lemma app_assoc_str s t u : (s +:+ t) +:+ u = s +:+ (t +:+ u).
Proof.
  induction s as [|c s IH]; [reflexivity|]. now rewrite !app_cons, IH.
Qed.

Lemma length_app_str s t :
  String.length (s +:+ t) = String.length s + String.length t.
Proof.
  induction s as [|c s IH]; [reflexivity|]. rewrite app_cons. simpl.
  now rewrite IH.
Qed.

Lemma filter_app_str q s t :
  Str.filter q (s +:+ t) = Str.filter q s +:+ Str.filter q t.
Proof.
  induction s as [|c s IH]; [reflexivity|]. rewrite app_cons. simpl.
  destruct (q c); [rewrite app_cons|]; now rewrite IH.
Qed.

Lemma take_app_exact w t : Str.take (String.length w) (w +:+ t) = w.
Proof.
  induction w as [|c w IH].
  - now destruct t.
  - rewrite app_cons. simpl. now rewrite IH.
Qed.

Lemma count_app q s t :
  Shape.count q (s +:+ t) = Shape.count q s + Shape.count q t.
Proof. unfold Shape.count. now rewrite filter_app_str, length_app_str. Qed.

Lemma count_le_length q s : Shape.count q s <= String.length s.
Proof.
  unfold Shape.count. induction s as [|c s IH]; simpl; [lia|].
  destruct (q c); simpl; lia.
Qed.

Lemma occurs_in_cons w c s : Shape.occurs_in w s -> Shape.occurs_in w (String c s).
Proof. intros (pre & post & ->). now exists (String c pre), post. Qed.

Lemma occurs_in_prefix w t : Shape.occurs_in w (w +:+ t).
Proof. now exists EmptyString, t. Qed.

End AppendFacts.

(** ** The matcher finds words of its pattern *)

Section MatcherSound.

Import Re Shape.

Lemma rep_sound {R : Type} p lo hi b s g (k : pos -> option R) x :
  rep p lo hi b s g k = Some x ->
  exists w b' s',
    lang (Rep p lo hi) w /\ s = w +:+ s' /\ k (Pos b' s' g) = Some x.
Proof.
  revert lo hi b. induction s as [|c s IH]; intros lo hi b.
  - simpl. destruct (Nat.eqb_spec lo 0) as [->|]; [|discriminate].
    intros Hk. exists EmptyString, b, EmptyString.
    repeat split; simpl; try lia; [now destruct hi; simpl; lia|assumption].
  - simpl.
    assert (Hstop :
      (if lo =? 0 then k (Pos b (String c s) g) else None) = Some x ->
      exists w b' s',
        lang (Rep p lo hi) w /\ String c s = w +:+ s' /\
        k (Pos b' s' g) = Some x).
    { destruct (Nat.eqb_spec lo 0) as [->|]; [|discriminate].
      intros Hk. exists EmptyString, b, (String c s).
      repeat split; simpl; try lia; [now destruct hi; simpl; lia|assumption]. }
    destruct (p c) eqn:Hp; simpl; [|exact Hstop].
    destruct (may_take hi) eqn:Hhi; [|exact Hstop].
    destruct (rep p (pred lo) (one_less hi) (Some c) s g k) as [r|] eqn:E;
      [|exact Hstop].
    intros [= ->].
    apply IH in E as (w & b' & s' & (Hall & Hlo & Hmax) & -> & Hk).
    exists (String c w), b', s'. split; [|split; [reflexivity|assumption]].
    simpl. rewrite Hp, Hall. repeat split; [lia|].
    destruct hi as [[|h]|]; simpl in *; try discriminate; lia.
Qed.

Lemma run_sound {R : Type} r st (k : pos -> option R) x :
  run r st k = Some x ->
  exists w st', lang r w /\ rest st = w +:+ rest st' /\ k st' = Some x.
Proof.
  revert st k x.
  induction r as [|p|r1 IH1 r2 IH2|r1 IH1 r2 IH2|r1 IH1|p lo hi|r1 IH1|];
    intros st k x; simpl.
  - intros Hk. now exists EmptyString, st.
  - destruct (rest st) as [|c s'] eqn:Hs; [discriminate|].
    destruct (p c) eqn:Hp; [|discriminate]. intros Hk.
    exists (String c EmptyString), (Pos (Some c) s' (groups st)).
    repeat split; eauto.
  - intros H. apply IH1 in H as (w1 & st1 & H1 & Hs1 & H).
    apply IH2 in H as (w2 & st2 & H2 & Hs2 & H).
    exists (w1 +:+ w2), st2. split; [eauto|]. split; [|assumption].
    now rewrite Hs1, Hs2, app_assoc_str.
  - destruct (run r1 st k) as [y|] eqn:E.
    + intros [= ->]. apply IH1 in E as (w & st' & ? & ? & ?). eauto 6.
    + intros H. apply IH2 in H as (w & st' & ? & ? & ?). eauto 6.
  - destruct (run r1 st k) as [y|] eqn:E.
    + intros [= ->]. apply IH1 in E as (w & st' & ? & ? & ?). eauto 6.
    + intros H. exists EmptyString, st. auto.
  - intros H. apply rep_sound in H as (w & b' & s' & Hw & Hs & Hk).
    exists w, (Pos b' s' (groups st)). auto.
  - intros H. apply IH1 in H as (w & st' & Hw & Hs & Hk).
    eexists w, (Pos _ (rest st') _). split; [exact Hw|].
    split; [exact Hs|exact Hk].
  - destruct (xorb _ _); [|discriminate]. intros Hk.
    now exists EmptyString, st.
Qed.

Lemma match_at_sound r b s st :
  match_at r b s = Some st -> exists w, lang r w /\ s = w +:+ rest st.
Proof.
  unfold match_at. intros H.
  apply run_sound in H as (w & st' & Hw & Hs & [= ->]). eauto.
Qed.

(** The text of a match is a word of the pattern, cut out of the subject. *)
Lemma match_at_whole r b s st :
  match_at r b s = Some st ->
  lang r (Str.take (String.length s - String.length (rest st)) s) /\
  occurs_in (Str.take (String.length s - String.length (rest st)) s) s.
Proof.
  intros H. apply match_at_sound in H as (w & Hw & Hs).
  rewrite Hs at 1 3. rewrite length_app_str.
  replace (String.length w + String.length (rest st) - String.length (rest st))
    with (String.length w) by lia.
  rewrite Hs at 1 2. rewrite take_app_exact. split; [assumption|].
  rewrite Hs. apply occurs_in_prefix.
Qed.

Lemma scan_sound r skip b s f :
  In f (scan r skip b s) -> lang r (whole f) /\ occurs_in (whole f) s.
Proof.
  revert skip b. induction s as [|c s IH]; intros skip b.
  - destruct skip; simpl; [|contradiction].
    destruct (match_at r b EmptyString) as [st|] eqn:E; [|contradiction].
    intros [<-|[]]. exact (match_at_whole r b EmptyString st E).
  - destruct skip as [|n]; simpl.
    + destruct (match_at r b (String c s)) as [st|] eqn:E.
      * intros [<-|Hin].
        -- exact (match_at_whole r b (String c s) st E).
        -- apply IH in Hin as [? ?]. split; [assumption|].
           now apply occurs_in_cons.
      * intros Hin. apply IH in Hin as [? ?]. split; [assumption|].
        now apply occurs_in_cons.
    + intros Hin. apply IH in Hin as [? ?]. split; [assumption|].
      now apply occurs_in_cons.
Qed.

(** Every string [findall] returns is a word of the pattern and stands in
    the text. *)
Lemma findall_sound r text w :
  w ∈ findall r text -> lang r w /\ occurs_in w text.
Proof.
  unfold findall. rewrite list_elem_of_In, in_map_iff.
  intros (f & <- & Hf). now apply scan_sound in Hf.
Qed.

End MatcherSound.

(** ** Counting characters of a class in the words of a pattern *)

Section CountRange.

Import Re Shape.

Lemma in_all_ascii c : In c all_ascii.
Proof.
  unfold all_ascii. apply in_map_iff. exists (nat_of_ascii c).
  split; [apply ascii_nat_embedding|].
  apply in_seq. pose proof (nat_ascii_bounded c). lia.
Qed.

Lemma within_sound p q c : within p q = true -> p c = true -> q c = true.
Proof.
  unfold within. rewrite forallb_forall. intros H Hp.
  specialize (H c (in_all_ascii c)). now rewrite Hp in H.
Qed.

Lemma apart_sound p q c : apart p q = true -> p c = true -> q c = false.
Proof.
  unfold apart. rewrite forallb_forall. intros H Hp.
  specialize (H c (in_all_ascii c)). rewrite Hp in H.
  now destruct (q c).
Qed.

Lemma unit_range_sound q p c :
  p c = true ->
  fst (unit_range q p) <= Shape.count q (String c EmptyString) /\
  Shape.count q (String c EmptyString) <= snd (unit_range q p).
Proof.
  intros Hp. unfold unit_range, Shape.count. simpl.
  destruct (within p q) eqn:Hw.
  - rewrite (within_sound p q c Hw Hp). simpl. lia.
  - destruct (apart p q) eqn:Ha.
    + rewrite (apart_sound p q c Ha Hp). simpl. lia.
    + destruct (q c); simpl; lia.
Qed.

Lemma all_chars_range q p w :
  all_chars p w = true ->
  fst (unit_range q p) * String.length w <= Shape.count q w /\
  Shape.count q w <= snd (unit_range q p) * String.length w.
Proof.
  induction w as [|c w IH]; simpl; [unfold Shape.count; simpl; lia|].
  intros [Hp Hw]%andb_true_iff. specialize (IH Hw).
  pose proof (unit_range_sound q p c Hp) as Hc.
  change (String c w) with (String c EmptyString +:+ w).
  rewrite count_app. nia.
Qed.

(** The bounds computed from the pattern hold for each of its words. *)
Lemma count_range_sound q r w :
  lang r w ->
  fst (count_range q r) <= Shape.count q w /\
  at_most (snd (count_range q r)) (Shape.count q w).
Proof.
  revert w.
  induction r as [|p|r1 IH1 r2 IH2|r1 IH1 r2 IH2|r1 IH1|p lo hi|r1 IH1|];
    intros w; simpl.
  - intros ->. unfold Shape.count. simpl. lia.
  - intros (c & -> & Hp). pose proof (unit_range_sound q p c Hp).
    destruct (unit_range q p). simpl in *. lia.
  - intros (w1 & w2 & -> & H1 & H2).
    specialize (IH1 _ H1). specialize (IH2 _ H2). rewrite count_app.
    destruct (count_range q r1) as [a1 [b1|]],
             (count_range q r2) as [a2 [b2|]]; simpl in *; lia.
  - intros [H|H]; [specialize (IH1 _ H)|specialize (IH2 _ H)];
      destruct (count_range q r1) as [a1 [b1|]],
               (count_range q r2) as [a2 [b2|]]; simpl in *; lia.
  - intros [->|H].
    + destruct (count_range q r1) as [a1 [b1|]];
        unfold Shape.count; simpl; lia.
    + specialize (IH1 _ H).
      destruct (count_range q r1) as [a1 [b1|]]; simpl in *; lia.
  - intros (Hall & Hlo & Hhi).
    pose proof (all_chars_range q p w Hall) as [Ha Hb].
    destruct (unit_range q p) as [a b]. simpl in *. split; [nia|].
    destruct hi as [h|]; simpl in *; [nia|].
    destruct (Nat.eqb_spec b 0) as [->|]; simpl; lia.
  - apply IH1.
  - intros ->. unfold Shape.count. simpl. lia.
Qed.

End CountRange.

(** ** The shape of the extractor's candidates *)

Section CandidateShape.

Import Re Shape EnhancedWebScraper.

Lemma filter_ext_str p q s :
  (forall c, p c = q c) -> Str.filter p s = Str.filter q s.
Proof.
  intros H. induction s as [|c s IH]; simpl; [reflexivity|].
  now rewrite H, IH.
Qed.

Lemma count_either p q w :
  (forall c, p c && q c = false) ->
  Shape.count (fun c => p c || q c) w = Shape.count p w + Shape.count q w.
Proof.
  intros H. unfold Shape.count.
  induction w as [|c w IH]; simpl; [reflexivity|].
  specialize (H c). destruct (p c), (q c); simpl in *;
    try discriminate; lia.
Qed.

Lemma count_none_all_chars q w :
  Shape.count (fun c => negb (q c)) w = 0 -> all_chars q w = true.
Proof.
  unfold Shape.count. induction w as [|c w IH]; simpl; [reflexivity|].
  destruct (q c); simpl; [exact IH|discriminate].
Qed.

Lemma all_chars_within p q w :
  within p q = true -> all_chars p w = true -> all_chars q w = true.
Proof.
  intros Hpq. induction w as [|c w IH]; simpl; [reflexivity|].
  intros [Hp Hw]%andb_true_iff.
  now rewrite (within_sound p q c Hpq Hp), IH.
Qed.

Lemma digits_only_count p : String.length (digits_only p) = Shape.count Chars.digit p.
Proof.
  unfold digits_only, sub_class_empty, Shape.count. f_equal.
  apply filter_ext_str. intros c. apply negb_involutive.
Qed.

Lemma cleaned_phone_count p :
  String.length (cleaned_phone p)
  = Shape.count Chars.digit p + Shape.count (Chars.one "+") p.
Proof.
  unfold cleaned_phone, sub_class_empty.
  rewrite <- count_either.
  - unfold Shape.count. f_equal. apply filter_ext_str.
    intros c. apply negb_involutive.
  - intros c. destruct c as [[] [] [] [] [] [] [] []]; reflexivity.
Qed.

Lemma extracted_phone_shape (text p : string) :
  p ∈ (extract_contacts_from_text text).2 ->
  occurs_in p text /\
  all_chars phone_char p = true /\
  Shape.count (Chars.one "+") p <= 1 /\
  9 <= String.length (digits_only p) <= 14.
Proof.
  intros [Hfound Hfloor]%extracted_phone_elem.
  apply findall_sound in Hfound as [Hlang Hocc].
  pose proof (count_range_sound Chars.digit _ _ Hlang) as Hd.
  pose proof (count_range_sound (Chars.one "+") _ _ Hlang) as Hp.
  pose proof (count_range_sound (fun c => negb (phone_char c)) _ _ Hlang)
    as Hc.
  replace (count_range Chars.digit phone_pattern) with (6, Some 14) in Hd
    by (vm_compute; reflexivity).
  replace (count_range (Chars.one "+") phone_pattern) with (0, Some 1) in Hp
    by (vm_compute; reflexivity).
  replace (count_range (fun c => negb (phone_char c)) phone_pattern)
    with (0, Some 0) in Hc by (vm_compute; reflexivity).
  simpl in Hd, Hp, Hc.
  rewrite cleaned_phone_count in Hfloor. rewrite digits_only_count.
  split; [assumption|]. split; [apply count_none_all_chars; lia|]. lia.
Qed.

(** X3. A phone the extractor returns stands in the text as it is, holds
    only digits, [+], parentheses, [-], [.] and white space, at most one
    [+], and between nine and fourteen digits. *)
Theorem returned_phone_shape (text p : string) :
  p ∈ (extract_contacts_from_text text).2 ->
  occurs_in p text /\
  all_chars phone_char p = true /\
  Shape.count (Chars.one "+") p <= 1 /\
  9 <= String.length (digits_only p) <= 14.
Proof. apply extracted_phone_shape. Qed.

Lemma returned_phone_shape_witness :
  9 <= String.length (digits_only "+49 1234567") <= 14.
Proof.
  apply (returned_phone_shape "Tel: +49 1234567" "+49 1234567").
  by_evaluation.
Defined.

End CandidateShape.

Section EmailShape.

Import Re Shape EnhancedWebScraper.

Lemma contains_char_app x s t :
  Str.contains_char x (s +:+ t) = Str.contains_char x s || Str.contains_char x t.
Proof.
  induction s as [|c s IH]; [reflexivity|]. rewrite app_cons. simpl.
  now rewrite IH, orb_assoc.
Qed.

Lemma all_chars_lacks p x w :
  all_chars p w = true -> p x = false -> Str.contains_char x w = false.
Proof.
  intros Hw Hx. induction w as [|c w IH]; simpl; [reflexivity|].
  simpl in Hw. apply andb_true_iff in Hw as [Hc Hw].
  rewrite (IH Hw), orb_false_r.
  destruct (Ascii.eqb_spec c x) as [->|]; [congruence|reflexivity].
Qed.

Lemma split_without sep s :
  Str.contains_char sep s = false -> Str.split sep s = [s].
Proof.
  induction s as [|c s IH]; simpl; [reflexivity|].
  destruct (Ascii.eqb c sep); simpl; [discriminate|].
  intros H. now rewrite (IH H).
Qed.

Lemma split_at_first sep l r :
  Str.contains_char sep l = false ->
  Str.split sep (l +:+ String sep r) = l :: Str.split sep r.
Proof.
  induction l as [|c l IH].
  - intros _. change (EmptyString +:+ String sep r) with (String sep r).
    simpl. now rewrite Ascii.eqb_refl.
  - rewrite app_cons. simpl.
    destruct (Ascii.eqb c sep) eqn:E; simpl; [discriminate|].
    intros H. now rewrite (IH H).
Qed.

(** X4. A candidate found by [email_pattern] stands in the text and reads
    local@domain.tld, with a single "@": a non-empty local part, a
    non-empty domain and a top-level part of two characters or more, each
    over its class.  The validator's tests for "@" and for a dot after it
    always pass on such a candidate: it is turned down only for an excluded
    domain or a placeholder fragment. *)
Theorem plain_candidate_shape (text w : string) :
  w ∈ findall email_pattern text ->
  occurs_in w text /\
  exists local domain tld,
    w = local +:+ "@" +:+ domain +:+ "." +:+ tld /\
    all_chars local_class local = true /\ 1 <= String.length local /\
    all_chars domain_class domain = true /\ 1 <= String.length domain /\
    all_chars tld_class tld = true /\ 2 <= String.length tld /\
    Str.split "@" w = [local; domain +:+ "." +:+ tld] /\
    is_valid_email w
    = negb (bool_decide (Str.lower (domain +:+ "." +:+ tld) ∈ excluded_domains))
      && negb (existsb (fun pattern => search pattern (Str.lower w))
                       fake_patterns).
Proof.
  intros [Hlang Hocc]%findall_sound. split; [assumption|].
  cbn in Hlang.
  destruct Hlang as (w1 & w2 & -> & -> & local & w4 & -> & (Hl & Hl1 & _)
                     & w5 & w6 & -> & (c1 & -> & Hc1)
                     & domain & w8 & -> & (Hd & Hd1 & _)
                     & w9 & w10 & -> & (c2 & -> & Hc2)
                     & tld & w12 & -> & (Ht & Ht2 & _) & ->).
  apply Ascii.eqb_eq in Hc1 as ->. apply Ascii.eqb_eq in Hc2 as ->.
  apply (all_chars_within _ local_class) in Hl; [|vm_compute; reflexivity].
  apply (all_chars_within _ domain_class) in Hd; [|vm_compute; reflexivity].
  apply (all_chars_within _ tld_class) in Ht; [|vm_compute; reflexivity].
  change (EmptyString +:+ local +:+ "@" +:+ domain +:+ "." +:+ tld +:+ "")
    with (local +:+ "@" +:+ domain +:+ "." +:+ (tld +:+ "")).
  rewrite app_empty_r.
  exists local, domain, tld.
  assert (Hsplit : Str.split "@" (local +:+ "@" +:+ domain +:+ "." +:+ tld)
                   = [local; domain +:+ "." +:+ tld]).
  { change (local +:+ "@" +:+ domain +:+ "." +:+ tld)
      with (local +:+ String "@" (domain +:+ String "." tld)).
    rewrite split_at_first by (now apply (all_chars_lacks local_class)).
    rewrite split_without; [reflexivity|].
    rewrite contains_char_app. simpl.
    rewrite (all_chars_lacks domain_class "@" domain Hd eq_refl).
    now rewrite (all_chars_lacks tld_class "@" tld Ht eq_refl). }
  repeat (split; [assumption || reflexivity|]).
  assert (Hat : Str.contains_char "@"
                  (local +:+ "@" +:+ domain +:+ "." +:+ tld) = true).
  { change (local +:+ "@" +:+ domain +:+ "." +:+ tld)
      with (local +:+ String "@" (domain +:+ String "." tld)).
    rewrite contains_char_app. simpl. apply orb_true_r. }
  assert (Hdot : Str.contains_char "." (domain +:+ "." +:+ tld) = true).
  { change (domain +:+ "." +:+ tld) with (domain +:+ String "." tld).
    rewrite contains_char_app. simpl. apply orb_true_r. }
  unfold is_valid_email, is_valid_email_body.
  rewrite Hsplit, Hat. cbn [negb index nth_error mbind outcome_bind].
  rewrite Hdot. cbn [negb].
  destruct (bool_decide _); [reflexivity|].
  destruct (existsb _ _); reflexivity.
Qed.

Lemma plain_candidate_shape_witness :
  Shape.occurs_in "j.smith@acme.co" "Write to j.smith@acme.co today".
Proof.
  apply (plain_candidate_shape "Write to j.smith@acme.co today"
                               "j.smith@acme.co").
  by_evaluation.
Defined.

End EmailShape.

(** ** The website crawl *)

Section CrawlFacts.

Import EnhancedWebScraper ScrapeWebsite.

Lemma urls_to_check_paths base_url base_path :
  urls_to_check base_url base_path
  = base_url ::
    List.map (String.append base_path)
      (flat_map (fun pattern => [pattern; Str.upper pattern]) contact_patterns).
Proof.
  reflexivity.
Qed.

(** X5. The crawl has 75 URLs to choose from: the base URL, then each
    contact pattern and its upper case.  It requests the first [max_pages]
    of them, so with 30 pages or fewer - the most the slider of [main]
    allows - it requests only the base URL, the fourteen English paths in
    both cases and "/kontakt"; "/impressum" and the French and Spanish
    paths are out of reach. *)
Theorem crawl_reach (base_url base_path : string) (max_pages : nat) :
  length (urls_to_check base_url base_path) = 75 /\
  (max_pages <= 30 ->
   firstn max_pages (urls_to_check base_url base_path)
   = firstn max_pages
       (base_url :: List.map (String.append base_path) reachable_paths)).
Proof.
  rewrite urls_to_check_paths. split.
  - reflexivity.
  - intros Hmax.
    rewrite <- (firstn_skipn 29
                  (flat_map (fun pattern => [pattern; Str.upper pattern])
                            contact_patterns)).
    replace (firstn 29 (flat_map (fun pattern => [pattern; Str.upper pattern])
                                 contact_patterns))
      with reachable_paths by (vm_compute; reflexivity).
    rewrite map_app, app_comm_cons, firstn_app.
    replace (max_pages
             - length (base_url :: List.map (String.append base_path)
                                            reachable_paths)) with 0
      by (change (length (base_url :: List.map (String.append base_path)
                                                reachable_paths)) with 30; lia).
    rewrite firstn_O. apply app_nil_r.
Qed.

Lemma crawl_reach_witness :
  firstn 15 (urls_to_check "https://acme.de" "https://acme.de")
  = firstn 15 ("https://acme.de" ::
               List.map (String.append "https://acme.de") reachable_paths).
Proof.
  apply (proj2 (crawl_reach "https://acme.de" "https://acme.de" 15)). lia.
Defined.

Lemma add_json_ld_prevalidated found script :
  set_Forall prevalidated found.1 ->
  set_Forall prevalidated (add_json_ld found script).1.
Proof.
  intros H. unfold add_json_ld.
  destruct script as [data|]; [|assumption]. simpl.
  destruct (ld_email data); [|assumption].
  now apply add_email_prevalidated.
Qed.

Lemma page_contacts_prevalidated page :
  set_Forall prevalidated (page_contacts page).1.
Proof.
  unfold page_contacts.
  pose proof (extracted_emails_all_prevalidated (text_content page)) as H.
  destruct (extract_contacts_from_text (text_content page)) as [emails phones].
  simpl in H.
  apply (foldl_invariant (fun found => set_Forall prevalidated found.1)).
  - simpl. apply (foldl_invariant (set_Forall prevalidated)); [assumption|].
    intros. now apply add_email_prevalidated.
  - intros. now apply add_json_ld_prevalidated.
Qed.

Lemma scrape_emails_prevalidated fetch base_url base_path max_pages :
  set_Forall prevalidated
    (res_emails (scrape_website fetch base_url base_path max_pages)).
Proof.
  unfold scrape_website.
  apply (foldl_invariant (fun st => set_Forall prevalidated (res_emails st))).
  - intros e He. now apply elem_of_empty in He.
  - intros st [i u] H. unfold scrape_step. simpl.
    destruct (fetch i u) as [page| |msg]; [|assumption|assumption].
    pose proof (page_contacts_prevalidated page) as Hp.
    destruct (page_contacts page) as [emails phones]. simpl in *.
    intros e [He|He]%elem_of_union; auto.
Qed.

Lemma nonempty_elements (X : gset string) :
  nonempty (elements X) = false <-> X = ∅.
Proof.
  split.
  - destruct (elements X) eqn:E; [|discriminate].
    intros _. now apply leibniz_equiv, elements_empty_iff.
  - intros ->. now rewrite elements_empty.
Qed.

Lemma nonempty_size (X : gset string) :
  nonempty (elements X) = true -> 1 <= size X.
Proof.
  unfold size, set_size. simpl. destruct (elements X); [discriminate|].
  simpl. lia.
Qed.

Lemma scrape_step_counters fetch st turn :
  counters_agree st -> counters_agree (scrape_step fetch st turn).
Proof.
  intros (Hn & Hz & Hall). unfold scrape_step.
  destruct (fetch turn.1 turn.2) as [page| |msg].
  - destruct (page_contacts page) as [emails phones].
    destruct (nonempty (elements emails) || nonempty (elements phones)) eqn:F.
    + split; [|split]; cbn [successful_scrapes pages_scraped res_emails res_phones].
      * unfold successes. rewrite List.filter_app, length_app. simpl.
        unfold successes in Hn. lia.
      * split; [discriminate|]. intros [He Hp].
        apply empty_union_L in He as [_ ->], Hp as [_ ->].
        now rewrite elements_empty in F.
      * apply Forall_app. split; [assumption|].
        constructor; [|constructor]. intros _. simpl.
        apply orb_true_iff in F as [F|F]; apply nonempty_size in F; lia.
    + apply orb_false_iff in F as [->%nonempty_elements ->%nonempty_elements].
      split; [|split]; simpl; [assumption| |assumption].
      now rewrite !(right_id_L ∅ (∪)).
  - split; [|split]; assumption.
  - split; [|split]; cbn [successful_scrapes pages_scraped res_emails res_phones].
    + unfold successes. rewrite List.filter_app, length_app. simpl.
      unfold successes in Hn. lia.
    + assumption.
    + apply Forall_app. split; [assumption|].
      constructor; [|constructor]. simpl. discriminate.
Qed.

Lemma scrape_counters_agree fetch base_url base_path max_pages :
  counters_agree (scrape_website fetch base_url base_path max_pages).
Proof.
  unfold scrape_website. apply (foldl_invariant counters_agree).
  - repeat split; simpl; auto.
  - intros. now apply scrape_step_counters.
Qed.

(** X6. Every e-mail [scrape_website] returns - from the page text, a
    [mailto:] link or a JSON-LD block, on any page and whatever the
    fetches answer - is accepted by [is_valid_email] and is lowercase. *)
Theorem scrape_emails_validated fetch base_url base_path max_pages e :
  e ∈ res_emails (scrape_website fetch base_url base_path max_pages) ->
  is_valid_email e = true /\ Str.lower e = e.
Proof. apply scrape_emails_prevalidated. Qed.

Lemma scrape_emails_validated_witness :
  is_valid_email "sales@acme.co" = true /\
  Str.lower "sales@acme.co" = "sales@acme.co".
Proof.
  apply (scrape_emails_validated sample_fetch "https://acme.co"
                                 "https://acme.co" 15).
  by_evaluation.
Defined.

(** X7. The counters of [scrape_website] agree with its sets:
    [successful_scrapes] is the number of ['success'] entries of
    [pages_scraped]; it is 0 exactly when no e-mail and no phone was found;
    every ['success'] entry counts at least one contact.  A page that does
    not answer leaves no entry at all. *)
Theorem scrape_counters fetch base_url base_path max_pages :
  let res := scrape_website fetch base_url base_path max_pages in
  successful_scrapes res = length (successes (pages_scraped res)) /\
  (successful_scrapes res = 0 <-> res_emails res = ∅ /\ res_phones res = ∅) /\
  Forall (fun entry => status entry = "success" ->
                       1 <= emails_found entry + phones_found entry)
         (pages_scraped res) /\
  (forall st turn, fetch turn.1 turn.2 = NoPage ->
                   scrape_step fetch st turn = st).
Proof.
  intros res.
  destruct (scrape_counters_agree fetch base_url base_path max_pages)
    as (H1 & H2 & H3).
  split; [exact H1|]. split; [exact H2|]. split; [exact H3|].
  intros st turn Hno. unfold scrape_step. now rewrite Hno.
Qed.

End CrawlFacts.

(** ** Web search, AI report and WHOIS *)

Section SourceFacts.

Import EnhancedWebScraper WebSearch Shape.

Lemma add_hit_emails found hit :
  set_Forall prevalidated found.1 ->
  set_Forall prevalidated (add_hit found hit).1.
Proof.
  intros H. unfold add_hit.
  pose proof (extracted_emails_all_prevalidated (hit_text hit)) as He.
  destruct (extract_contacts_from_text (hit_text hit)) as [emails phones].
  simpl in *. intros e [?|?]%elem_of_union; auto.
Qed.

Lemma add_hit_phones found hit :
  set_Forall phone_sized found.2 ->
  set_Forall phone_sized (add_hit found hit).2.
Proof.
  intros H. unfold add_hit.
  pose proof (extracted_phone_shape (hit_text hit)) as Hp.
  destruct (extract_contacts_from_text (hit_text hit)) as [emails phones].
  simpl in *. intros p [?|Hin]%elem_of_union; [auto|].
  now apply Hp in Hin.
Qed.

Lemma search_emails_prevalidated t b d tk bk company netloc country :
  set_Forall prevalidated
    (found_emails (search_web_sources t b d tk bk company netloc country)).
Proof.
  unfold search_web_sources. cbn [found_emails].
  apply (foldl_invariant (fun found => set_Forall prevalidated found.1)).
  - intros e He. now apply elem_of_empty in He.
  - intros. now apply add_hit_emails.
Qed.

Lemma search_phones_sized t b d tk bk company netloc country :
  set_Forall phone_sized
    (found_phones (search_web_sources t b d tk bk company netloc country)).
Proof.
  unfold search_web_sources. cbn [found_phones].
  apply (foldl_invariant (fun found => set_Forall phone_sized found.2)).
  - intros e He. now apply elem_of_empty in He.
  - intros. now apply add_hit_phones.
Qed.

(** X8. Whatever the search providers return, every e-mail of
    [search_web_sources] is accepted by [is_valid_email] and is lowercase,
    every phone has nine to fourteen digits, [results_found] counts the
    results the providers gave for the queries sent, in the order they
    came, and [search_results] is the list of the first ten of them (all of
    them when there are fewer). *)
Theorem search_contacts_checked t b d tk bk company netloc country :
  let res := search_web_sources t b d tk bk company netloc country in
  let results :=
    all_results t b d tk bk (search_queries company netloc country) in
  (forall e, e ∈ found_emails res ->
             is_valid_email e = true /\ Str.lower e = e) /\
  (forall p, p ∈ found_phones res ->
             9 <= String.length (digits_only p) <= 14) /\
  length (search_results res) = Nat.min 10 (results_found res) /\
  results_found res = length results /\
  search_results res = firstn 10 results /\
  (forall i, i < 10 -> nth_error (search_results res) i = nth_error results i) /\
  (results_found res <= 10 -> search_results res = results).
Proof.
  intros res results. split; [apply search_emails_prevalidated|].
  split; [apply search_phones_sized|].
  unfold res, search_web_sources. cbn [search_results results_found].
  fold results.
  split; [apply length_firstn|].
  split; [reflexivity|]. split; [reflexivity|]. split.
  - intros i Hi. rewrite nth_error_firstn.
    now destruct (Nat.ltb_spec i 10); [|lia].
  - intros Hlen. now apply firstn_all2.
Qed.

Lemma search_contacts_checked_witness :
  is_valid_email "info@acme.co" = true /\ Str.lower "info@acme.co" = "info@acme.co".
Proof.
  apply (proj1 (search_contacts_checked
           (fun _ _ => [])
           (fun _ _ => [])
           (fun _ => [ {| hit_title := Some "Acme";
                          hit_content := Some "Mail Info@Acme.co" |} ])
           "" "" "Acme" "acme.co" "Germany")).
  by_evaluation.
Defined.

Lemma flat_map_agree {A B : Type} (f g : A -> list B) l :
  (forall x, In x l -> f x = g x) -> flat_map f l = flat_map g l.
Proof.
  induction l as [|x l IH]; simpl; intros H; [reflexivity|].
  rewrite (H x) by now left. rewrite IH; [reflexivity|].
  intros y Hy. apply H. now right.
Qed.

(** X9. [search_web_sources] sends no provider a query other than the
    first three of [search_queries] - the contact, executives and directory
    queries - so the "site:" query and the impressum query it adds for
    Germany are never sent; and DuckDuckGo is asked only when neither key
    is set. *)
Theorem search_uses_three_queries t b d tk bk company netloc country :
  (forall t' b' d',
     (forall query,
        In query
           [ quote +:+ company +:+ quote +:+ " contact email phone "
             +:+ country;
             quote +:+ company +:+ quote +:+ " executives management team";
             quote +:+ company +:+ quote +:+ " employee directory staff" ] ->
        t query tk = t' query tk /\ b query bk = b' query bk /\
        d query = d' query) ->
     search_web_sources t b d tk bk company netloc country
     = search_web_sources t' b' d' tk bk company netloc country) /\
  (Str.truthy tk || Str.truthy bk = true ->
   forall d',
     search_web_sources t b d tk bk company netloc country
     = search_web_sources t b d' tk bk company netloc country).
Proof.
  split.
  - intros t' b' d' H. unfold search_web_sources.
    replace (all_results t b d tk bk (search_queries company netloc country))
      with (all_results t' b' d' tk bk (search_queries company netloc country));
      [reflexivity|].
    unfold all_results. f_equal; [|f_equal].
    + destruct (Str.truthy tk); [|reflexivity].
      apply flat_map_agree. intros q Hq. symmetry. now apply H.
    + destruct (Str.truthy bk); [|reflexivity].
      apply flat_map_agree. intros q Hq. symmetry. apply H.
      simpl in Hq. simpl. tauto.
    + destruct (negb _ && negb _); [|reflexivity].
      apply flat_map_agree. intros q Hq. symmetry. apply H.
      simpl in Hq. simpl. tauto.
  - intros Hkey d'. unfold search_web_sources, all_results.
    destruct (Str.truthy tk), (Str.truthy bk); try discriminate; reflexivity.
Qed.

Lemma search_uses_three_queries_witness :
  search_web_sources (fun _ _ => []) (fun _ _ => []) (fun _ => [])
                     "key" "" "Acme" "acme.de" "Germany"
  = search_web_sources (fun _ _ => []) (fun _ _ => [])
      (fun _ => [ {| hit_title := None; hit_content := Some "x@acme.de" |} ])
      "key" "" "Acme" "acme.de" "Germany".
Proof.
  apply (proj2 (search_uses_three_queries (fun _ _ => []) (fun _ _ => [])
                  (fun _ => []) "key" "" "Acme" "acme.de" "Germany")).
  reflexivity.
Defined.

End SourceFacts.

Section AiFacts.

Import EnhancedWebScraper ReportParser AiResearch.

Lemma add_ai_email_elem found cell e :
  e ∈ add_ai_email found cell <->
  e ∈ found \/ taken_from cell e.
Proof.
  unfold add_ai_email, taken_from.
  destruct (Str.contains_char "@" cell); simpl;
    [|split; [auto|intros [?|(? & _)]; [assumption|discriminate]]].
  destruct (Str.contains "(estimated)" cell); simpl;
    [split; [auto|intros [?|(_ & ? & _)]; [assumption|discriminate]]|].
  destruct (is_valid_email (Str.lower (Str.strip cell))) eqn:Hv.
  - rewrite elem_of_union, elem_of_singleton. split.
    + intros [->|?]; auto.
    + intros [?|(_ & _ & -> & _)]; auto.
  - split; [auto|]. intros [?|(_ & _ & -> & Hv')]; [assumption|congruence].
Qed.

Lemma foldl_add_ai_email_elem cells found e :
  e ∈ foldl add_ai_email found cells <->
  e ∈ found \/ exists cell, In cell cells /\ taken_from cell e.
Proof.
  revert found. induction cells as [|cell cells IH]; intros found; simpl.
  - split; [auto|]. intros [?|(? & [] & _)]. assumption.
  - rewrite IH, add_ai_email_elem. split.
    + intros [[?|?]|(c & ? & ?)]; eauto.
    + intros [?|(c & [<-|?] & ?)]; eauto.
Qed.

Lemma ai_emails_loop df cols found e :
  e ∈ foldl (fun found col =>
               if Str.contains "email" (Str.lower col)
               then foldl add_ai_email found (column_cells df col)
               else found) found cols <->
  e ∈ found \/
  exists col cell,
    In col cols /\ Str.contains "email" (Str.lower col) = true /\
    In cell (column_cells df col) /\ taken_from cell e.
Proof.
  revert found. induction cols as [|col cols IH]; intros found; simpl.
  - split; [auto|]. intros [?|(? & ? & [] & _)]. assumption.
  - rewrite IH. destruct (Str.contains "email" (Str.lower col)) eqn:Hc.
    + rewrite foldl_add_ai_email_elem. split.
      * intros [[?|(cell & ? & ?)]|(c & cell & ? & ? & ? & ?)]; eauto 10.
      * intros [?|(c & cell & [<-|?] & ? & ? & ?)]; eauto 10.
    + split.
      * intros [?|(c & cell & ? & ? & ? & ?)]; eauto 10.
      * intros [?|(c & cell & [<-|?] & ? & ? & ?)]; eauto 10. congruence.
Qed.

Lemma ai_emails_elem df e :
  e ∈ ai_emails df <->
  exists col cell,
    In col (columns df) /\ Str.contains "email" (Str.lower col) = true /\
    In cell (column_cells df col) /\ taken_from cell e.
Proof.
  unfold ai_emails. rewrite ai_emails_loop, elem_of_empty. tauto.
Qed.

Lemma ai_emails_prevalidated df : set_Forall prevalidated (ai_emails df).
Proof.
  intros e (col & cell & _ & _ & _ & _ & _ & -> & Hv)%ai_emails_elem.
  split; [assumption|apply lower_idem].
Qed.

(** A name no column has selects nothing. *)
Lemma no_entry_named (cols : list string) (k : nat) (col : string) :
  col ∉ cols ->
  List.filter (fun entry => String.eqb col (snd entry))
              (combine (List.seq k (length cols)) cols)
  = [].
Proof.
  revert k. induction cols as [|c cols IH]; intros k Hnot; [reflexivity|].
  apply not_elem_of_cons in Hnot as [Hc Hcols]. simpl.
  destruct (String.eqb_spec col c) as [->|_]; [contradiction|].
  now apply IH.
Qed.

(** Among pairwise different header names, a name selects its own column. *)
Lemma one_entry_named (cols : list string) (k i : nat) (col : string) :
  NoDup cols -> nth_error cols i = Some col ->
  List.filter (fun entry => String.eqb col (snd entry))
              (combine (List.seq k (length cols)) cols)
  = [(k + i, col)].
Proof.
  revert k i. induction cols as [|c cols IH]; intros k i Hnd Hi.
  - now destruct i.
  - apply NoDup_cons in Hnd as [Hc Hnd]. destruct i as [|i]; simpl in *.
    + injection Hi as ->. rewrite String.eqb_refl.
      rewrite (no_entry_named _ _ _ Hc). now rewrite Nat.add_0_r.
    + destruct (String.eqb_spec col c) as [->|_].
      * exfalso. apply Hc, list_elem_of_In. eapply nth_error_In, Hi.
      * rewrite (IH (S k) i Hnd Hi). do 2 f_equal. lia.
Qed.

(** With pairwise different header names, the loop over a column goes
    through the cells at the column's position, row by row. *)
Lemma column_cells_at (df : DataFrame) (i : nat) (col : string) :
  NoDup (columns df) -> nth_error (columns df) i = Some col ->
  column_cells df col
  = List.map (fun row => nth i row EmptyString) (data df).
Proof.
  intros Hnd Hi. unfold column_cells.
  now rewrite (one_entry_named _ 0 i col Hnd Hi).
Qed.

(** X10. For a parsed AI table whose header names are pairwise different,
    the e-mails [main] takes from it are exactly the cells, stripped and
    lowered as a whole, that stand in some row at the position of a column
    whose header contains "email" in any case, hold an "@", do not hold
    "(estimated)" as written, and are accepted by [is_valid_email] once
    lowered; each is therefore valid and lowercase. *)
Theorem ai_emails_characterized (df : DataFrame) (e : string)
    (Hnames : NoDup (columns df)) :
  (e ∈ ai_emails df <->
   exists i col row,
     nth_error (columns df) i = Some col /\
     Str.contains "email" (Str.lower col) = true /\
     In row (data df) /\
     Str.contains_char "@" (nth i row EmptyString) = true /\
     Str.contains "(estimated)" (nth i row EmptyString) = false /\
     e = Str.lower (Str.strip (nth i row EmptyString)) /\
     is_valid_email e = true) /\
  (e ∈ ai_emails df -> is_valid_email e = true /\ Str.lower e = e).
Proof.
  split; [|apply ai_emails_prevalidated].
  rewrite ai_emails_elem. unfold taken_from. split.
  - intros (col & cell & Hcol & Hemail & Hcell & Hat & Hest & He & Hv).
    apply In_nth_error in Hcol as [i Hi].
    rewrite (column_cells_at df i col Hnames Hi) in Hcell.
    apply in_map_iff in Hcell as (row & <- & Hrow).
    exists i, col, row. auto 10.
  - intros (i & col & row & Hi & Hemail & Hrow & Hat & Hest & He & Hv).
    exists col, (nth i row EmptyString).
    split; [eapply nth_error_In, Hi|]. split; [exact Hemail|].
    split; [|auto].
    rewrite (column_cells_at df i col Hnames Hi).
    apply in_map_iff. eauto.
Qed.

Lemma ai_emails_characterized_witness :
  is_valid_email "ann@acme.co" = true /\ Str.lower "ann@acme.co" = "ann@acme.co".
Proof.
  apply (proj2 (ai_emails_characterized sample_frame "ann@acme.co"
                  ltac:(by_evaluation))).
  by_evaluation.
Defined.

End AiFacts.

Section WhoisFacts.

Import Whois.

(** X11. When [get_whois_info] reports e-mails, the list is not empty, has
    no duplicates, and holds exactly the e-mails of the WHOIS record in
    which none of "whoisguard", "proxy", "privacy", "registrar" occurs in
    any case; it reports none exactly when every e-mail of the record holds
    such a fragment. *)
Theorem whois_emails_filtered (field : EmailsField) :
  (forall l, info_emails field = Some l ->
     l <> [] /\ NoDup l /\
     forall e, e ∈ l <->
       In e (field_emails field) /\
       forall generic, In generic generic_fragments ->
                       Str.contains generic (Str.lower e) = false) /\
  (info_emails field = None <->
   forall e, In e (field_emails field) -> not_generic e = false).
Proof.
  assert (Hgen : forall e, not_generic e = true <->
            forall generic, In generic generic_fragments ->
                            Str.contains generic (Str.lower e) = false).
  { intros e. unfold not_generic. rewrite negb_true_iff. split.
    - intros H g Hg. destruct (Str.contains g (Str.lower e)) eqn:E; [|reflexivity].
      assert (existsb (fun generic => Str.contains generic (Str.lower e))
                      generic_fragments = true) by (apply existsb_exists; eauto).
      congruence.
    - intros H.
      destruct (existsb _ generic_fragments) eqn:E; [|reflexivity].
      apply existsb_exists in E as (g & Hg & Hc). rewrite (H g Hg) in Hc.
      discriminate. }
  unfold info_emails. split.
  - intros l.
    destruct (nonempty (List.filter not_generic (field_emails field))) eqn:Hne;
      [|discriminate].
    intros [= <-]. split; [|split].
    + intros Hnil. apply elements_empty_inv, leibniz_equiv in Hnil.
      destruct (List.filter not_generic (field_emails field)) as [|x xs];
        [discriminate|].
      assert (Hx : x ∈ (list_to_set (x :: xs) : gset string))
        by (apply elem_of_list_to_set, elem_of_cons; now left).
      rewrite Hnil in Hx. now apply elem_of_empty in Hx.
    + apply NoDup_elements.
    + intros e. rewrite elem_of_elements, elem_of_list_to_set,
        list_elem_of_In, filter_In, Hgen. reflexivity.
  - destruct (List.filter not_generic (field_emails field)) as [|x xs] eqn:E.
    + split; [|reflexivity]. intros _ e He.
      destruct (not_generic e) eqn:Hn; [|reflexivity].
      assert (Hin : In e (List.filter not_generic (field_emails field)))
        by (apply filter_In; auto).
      rewrite E in Hin. contradiction.
    + cbn [nonempty]. split; [discriminate|]. intros H.
      assert (Hin : In x (List.filter not_generic (field_emails field)))
        by (rewrite E; now left).
      apply filter_In in Hin as [Hin Hx]. rewrite (H x Hin) in Hx.
      discriminate.
Qed.

Lemma whois_emails_filtered_witness :
  ["owner@acme.co"] <> [] /\ NoDup ["owner@acme.co"] /\
  forall e, e ∈ ["owner@acme.co"] <->
    In e (field_emails (ManyEmails ["owner@acme.co"; "abuse@Registrar.net"])) /\
    forall generic, In generic generic_fragments ->
                    Str.contains generic (Str.lower e) = false.
Proof.
  apply (proj1 (whois_emails_filtered
                  (ManyEmails ["owner@acme.co"; "abuse@Registrar.net"]))).
  vm_compute. reflexivity.
Defined.

End WhoisFacts.

(** ** One run of [main] *)

Section RunFacts.

Import EnhancedWebScraper Main Research.

Lemma contact_source_elem key res s :
  s ∈ contact_source key res ->
  exists emails phones,
    res = Some (emails, phones) /\ src_emails s = emails /\
    src_phones s = phones.
Proof.
  unfold contact_source. destruct res as [[emails phones]|].
  - destruct (nonempty (elements emails) || nonempty (elements phones)).
    + intros ->%list_elem_of_singleton. simpl. eauto.
    + intros H. now apply elem_of_nil in H.
  - intros H. now apply elem_of_nil in H.
Qed.

Lemma contact_source_phone key emails phones p :
  p ∈ phones ->
  exists s, s ∈ contact_source key (Some (emails, phones)) /\ p ∈ src_phones s.
Proof.
  intros Hp. unfold contact_source.
  destruct (nonempty (elements phones)) eqn:E.
  - rewrite orb_true_r. eexists. split; [apply list_elem_of_singleton; reflexivity|].
    exact Hp.
  - apply nonempty_elements in E. subst. now apply elem_of_empty in Hp.
Qed.

(** X12. Every e-mail [main] collects in a run is lowercase.  It is also
    accepted by [is_valid_email] unless it came from WHOIS, whose e-mails
    are lowered but never validated: a WHOIS record with
    "admin@example.com" puts that address among the results. *)
Theorem run_emails_lowercase whois scrape search ai_result :
  (forall e,
     e ∈ all_emails (research (collect whois scrape search ai_result)) ->
     Str.lower e = e /\
     (is_valid_email e = true \/
      exists field l raw,
        whois = Some field /\ Whois.info_emails field = Some l /\
        In raw l /\ e = Str.lower raw)) /\
  "admin@example.com"
    ∈ all_emails (research (collect (Some (Whois.OneEmail "admin@example.com"))
                                    None None None)) /\
  is_valid_email "admin@example.com" = false.
Proof.
  split; [|split; [by_evaluation|vm_compute; reflexivity]].
  intros e He. unfold research in He.
  apply all_emails_foldl in He as [He|(s & Hs & He)];
    [now apply elem_of_empty in He|].
  unfold sources in Hs. rewrite !elem_of_app in Hs.
  destruct Hs as [Hs|[Hs|[Hs|Hs]]].
  - unfold whois_source, collect in Hs. cbn [whois_emails] in Hs.
    destruct whois as [field|]; [|now apply elem_of_nil in Hs].
    cbn [mbind option_bind] in Hs.
    destruct (Whois.info_emails field) as [l|] eqn:El;
      [|now apply elem_of_nil in Hs].
    apply list_elem_of_singleton in Hs. subst s. cbn [src_emails] in He.
    apply elem_of_list_to_set, list_elem_of_In, in_map_iff in He
      as (raw & <- & Hraw).
    split; [apply lower_idem|]. right. eauto 8.
  - apply contact_source_elem in Hs as (emails & phones & Hres & Hse & _).
    unfold collect in Hres. cbn [scraping_results] in Hres.
    destruct scrape as [job|]; [|discriminate].
    cbn [fmap option_fmap option_map] in Hres. apply (inj Some) in Hres.
    assert (H1 : emails = (run_scrape job).1) by now rewrite Hres.
    rewrite Hse, H1 in He.
    destruct (scrape_emails_prevalidated _ _ _ _ _ He). auto.
  - apply contact_source_elem in Hs as (emails & phones & Hres & Hse & _).
    unfold collect in Hres. cbn [web_results] in Hres.
    destruct search as [job|]; [|discriminate].
    cbn [fmap option_fmap option_map] in Hres. apply (inj Some) in Hres.
    assert (H1 : emails = (run_search job).1) by now rewrite Hres.
    rewrite Hse, H1 in He.
    destruct (search_emails_prevalidated _ _ _ _ _ _ _ _ _ He). auto.
  - unfold ai_source, collect in Hs. cbn [Main.ai_emails] in Hs.
    destruct ai_result as [text|]; [|now apply elem_of_nil in Hs].
    cbn [mbind option_bind] in Hs.
    destruct (ReportParser.parse_markdown_table text) as [df|];
      [|now apply elem_of_nil in Hs].
    cbn [fmap option_fmap option_map] in Hs.
    apply list_elem_of_singleton in Hs. subst s. cbn [src_emails] in He.
    destruct (ai_emails_prevalidated _ _ He). auto.
Qed.

Lemma run_emails_lowercase_witness :
  Str.lower "ann@acme.co" = "ann@acme.co" /\
  (is_valid_email "ann@acme.co" = true \/
   exists field l raw,
     None = Some field /\ Whois.info_emails field = Some l /\
     In raw l /\ "ann@acme.co" = Str.lower raw).
Proof.
  apply (proj1 (run_emails_lowercase None None None
                  (Some ReportParser.sample_table))).
  by_evaluation.
Defined.

(** X13. The phones [main] collects in a run are exactly the phones of the
    website scrape and of the web search: WHOIS and the AI table, whose
    Phone column is not read, contribute none. *)
Theorem run_phones_sources whois scrape search ai_result (p : string) :
  p ∈ all_phones (research (collect whois scrape search ai_result)) <->
  (exists job, scrape = Some job /\ p ∈ (run_scrape job).2) \/
  (exists job, search = Some job /\ p ∈ (run_search job).2).
Proof.
  unfold research. rewrite all_phones_foldl. split.
  - intros [Hp|(s & Hs & Hp)]; [now apply elem_of_empty in Hp|].
    unfold sources in Hs. rewrite !elem_of_app in Hs.
    destruct Hs as [Hs|[Hs|[Hs|Hs]]].
    + unfold whois_source in Hs.
      destruct (whois_emails _); [|now apply elem_of_nil in Hs].
      apply list_elem_of_singleton in Hs. subst s.
      now apply elem_of_empty in Hp.
    + apply contact_source_elem in Hs as (emails & phones & Hres & _ & Hsp).
      unfold collect in Hres. cbn [scraping_results] in Hres.
      destruct scrape as [job|]; [|discriminate].
      cbn [fmap option_fmap option_map] in Hres. apply (inj Some) in Hres.
      left. exists job. split; [reflexivity|]. now rewrite Hres, <- Hsp.
    + apply contact_source_elem in Hs as (emails & phones & Hres & _ & Hsp).
      unfold collect in Hres. cbn [web_results] in Hres.
      destruct search as [job|]; [|discriminate].
      cbn [fmap option_fmap option_map] in Hres. apply (inj Some) in Hres.
      right. exists job. split; [reflexivity|]. now rewrite Hres, <- Hsp.
    + unfold ai_source in Hs.
      destruct (Main.ai_emails _); [|now apply elem_of_nil in Hs].
      apply list_elem_of_singleton in Hs. subst s.
      now apply elem_of_empty in Hp.
  - intros [(job & -> & Hp)|(job & -> & Hp)]; right.
    + destruct (contact_source_phone "website_scraping" (run_scrape job).1
                  (run_scrape job).2 p Hp) as (s & Hs & Hps).
      exists s. split; [|assumption]. unfold sources.
      rewrite !elem_of_app. right; left.
      unfold collect. cbn [scraping_results fmap option_fmap option_map].
      now destruct (run_scrape job).
    + destruct (contact_source_phone "web_search" (run_search job).1
                  (run_search job).2 p Hp) as (s & Hs & Hps).
      exists s. split; [|assumption]. unfold sources.
      rewrite !elem_of_app. right; right; left.
      unfold collect. cbn [web_results fmap option_fmap option_map].
      now destruct (run_search job).
Qed.

End RunFacts.

(** ** The pattern generator *)

Section GeneratorFacts.

Import PatternGenerator.

Lemma industry_has_empty words :
  Forall (fun word => word <> EmptyString) words ->
  industry_has EmptyString words = false.
Proof.
  unfold industry_has. induction 1 as [|w ws Hw _ IH]; [reflexivity|].
  destruct w; [contradiction|]. simpl. exact IH.
Qed.

(** X14. [generate_email_patterns] always returns the groups "Standard
    Business", "Executive" and "Departments" first, under names that are
    all different; "German Business" follows exactly when the lowered
    country is "germany", "deutschland" or "de"; and at most one industry
    group follows: "Education" when an education word occurs in the lowered
    industry, else "Technology" when a technology word occurs, else
    "Healthcare" when a health word occurs. *)
Theorem generated_groups (domain country industry : string) :
  let names := List.map fst (generate_email_patterns domain country industry) in
  let has := industry_has (Str.lower industry) in
  firstn 3 names = ["Standard Business"; "Executive"; "Departments"] /\
  NoDup names /\
  length (List.filter
            (fun name =>
               bool_decide (name ∈ ["Education"; "Technology"; "Healthcare"]))
            names) <= 1 /\
  ("German Business" ∈ names <->
   Str.lower country ∈ ["germany"; "deutschland"; "de"]) /\
  ("Education" ∈ names <->
   has ["education"; "school"; "university"; "bildung"] = true) /\
  ("Technology" ∈ names <->
   has ["education"; "school"; "university"; "bildung"] = false /\
   has ["tech"; "technology"; "software"] = true) /\
  ("Healthcare" ∈ names <->
   has ["education"; "school"; "university"; "bildung"] = false /\
   has ["tech"; "technology"; "software"] = false /\
   has ["healthcare"; "medical"; "hospital"] = true).
Proof.
  intros names has. subst names has. unfold generate_email_patterns.
  assert (Hempty : forall words,
            Forall (fun word => word <> EmptyString) words ->
            Str.truthy industry = false ->
            industry_has (Str.lower industry) words = false).
  { intros words Hw Ht. destruct industry; [|discriminate].
    now apply industry_has_empty. }
  assert (He := Hempty ["education"; "school"; "university"; "bildung"]).
  assert (Ht := Hempty ["tech"; "technology"; "software"]).
  assert (Hh := Hempty ["healthcare"; "medical"; "hospital"]).
  clear Hempty.
  destruct (bool_decide (Str.lower country ∈ ["germany"; "deutschland"; "de"]))
    eqn:G;
    [apply bool_decide_eq_true in G|apply bool_decide_eq_false in G];
    destruct (Str.truthy industry);
    [ | rewrite He, Ht, Hh by (try reflexivity; repeat constructor; discriminate)
      | | rewrite He, Ht, Hh by (try reflexivity; repeat constructor; discriminate) ];
    clear He Ht Hh;
    try (destruct (industry_has (Str.lower industry)
                     ["education"; "school"; "university"; "bildung"]);
         [|destruct (industry_has (Str.lower industry)
                       ["tech"; "technology"; "software"]);
           [|destruct (industry_has (Str.lower industry)
                         ["healthcare"; "medical"; "hospital"])]]);
    (split; [reflexivity|]);
    (split; [by_evaluation|]);
    (split; [vm_compute; lia|]);
    (split; [split; [intros H; first [exact G | exfalso; revert H; by_evaluation]
                    |intros H; first [by_evaluation | contradiction]]|]);
    repeat match goal with
           | |- _ /\ _ => split
           | |- _ <-> _ =>
               split; intros H;
               first [ by_evaluation
                     | repeat split; reflexivity
                     | exfalso; revert H; by_evaluation
                     | destruct H as (? & ?); discriminate
                     | destruct H as (? & ? & ?); discriminate
                     | discriminate ]
           end.
Qed.

(** X15. Every candidate [generate_email_patterns] lists is a lowercase
    word, an "@" and the domain as given - nothing is validated - and every
    group lists between four and six candidates. *)
Theorem generated_candidates (domain country industry group : string)
    (candidates : list string) :
  In (group, candidates) (generate_email_patterns domain country industry) ->
  4 <= length candidates <= 6 /\
  forall candidate, In candidate candidates ->
    exists local,
      candidate = local +:+ "@" +:+ domain /\
      Shape.all_chars Chars.lower local = true.
Proof.
  unfold generate_email_patterns. rewrite !in_app_iff. intros H.
  assert (Hlocals : exists locals,
            candidates = at_domain domain locals /\
            4 <= length locals <= 6 /\
            forallb (Shape.all_chars Chars.lower) locals = true).
  { assert (Hpick : forall cs,
              In cs (List.map (at_domain domain)
                       [ ["info"; "contact"; "hello"; "office"; "mail"; "admin"];
                         ["ceo"; "president"; "director"; "manager";
                          "leadership"];
                         ["sales"; "marketing"; "hr"; "support"; "finance";
                          "operations"];
                         ["kontakt"; "personal"; "bewerbung";
                          "geschaeftsleitung"; "verwaltung"; "vertrieb"];
                         ["admissions"; "registrar"; "faculty"; "academic";
                          "students"];
                         ["dev"; "tech"; "engineering"; "product"; "api"];
                         ["appointments"; "patients"; "medical"; "clinic"] ]) ->
              exists locals,
                cs = at_domain domain locals /\
                4 <= length locals <= 6 /\
                forallb (Shape.all_chars Chars.lower) locals = true).
    { intros cs (locals & <- & Hin)%in_map_iff. exists locals.
      split; [reflexivity|].
      repeat destruct Hin as [<-|Hin]; try contradiction;
        (split; [simpl; lia|reflexivity]). }
    apply Hpick.
    destruct H as [H|[H|H]].
    - destruct H as [[= _ <-]|[[= _ <-]|[[= _ <-]|[]]]]; simpl; tauto.
    - destruct (bool_decide _); [|contradiction].
      destruct H as [[= _ <-]|[]]. simpl; tauto.
    - destruct (Str.truthy industry); [|contradiction].
      destruct (industry_has _ _);
        [|destruct (industry_has _ _); [|destruct (industry_has _ _)]];
        try contradiction;
        destruct H as [[= _ <-]|[]]; simpl; tauto. }
  destruct Hlocals as (locals & -> & Hlen & Hall).
  unfold at_domain. rewrite length_map. split; [exact Hlen|].
  intros candidate (local & <- & Hin)%in_map_iff.
  exists local. split; [reflexivity|].
  rewrite forallb_forall in Hall. now apply Hall.
Qed.

Lemma generated_candidates_witness :
  4 <= length (at_domain "acme.de"
                 ["kontakt"; "personal"; "bewerbung"; "geschaeftsleitung";
                  "verwaltung"; "vertrieb"]) <= 6 /\
  forall candidate,
    In candidate (at_domain "acme.de"
                    ["kontakt"; "personal"; "bewerbung"; "geschaeftsleitung";
                     "verwaltung"; "vertrieb"]) ->
    exists local,
      candidate = local +:+ "@" +:+ "acme.de" /\
      Shape.all_chars Chars.lower local = true.
Proof.
  apply (generated_candidates "acme.de" "Germany" "" "German Business").
  vm_compute. tauto.
Defined.

End GeneratorFacts.

(** ** Letter case, the partition into categories, blank cells *)

Section MoreFacts.

Import EnhancedWebScraper Categorizer ReportParser.

(** X16. The validator ignores letter case: two candidates that differ
    only in the case of their letters get the same answer. *)
Theorem validator_ignores_case (e1 e2 : string) :
  Str.lower e1 = Str.lower e2 -> is_valid_email e1 = is_valid_email e2.
Proof.
  intros H. rewrite <- (is_valid_email_lower e1), <- (is_valid_email_lower e2).
  now rewrite H.
Qed.

Lemma validator_ignores_case_witness :
  is_valid_email "J.Smith@Acme.CO" = is_valid_email "j.smith@acme.co".
Proof. apply validator_ignores_case. vm_compute. reflexivity. Defined.

Lemma local_part_lower email : local_part (Str.lower email) = local_part email.
Proof.
  unfold local_part. rewrite split_at_lower.
  pose proof (split_not_nil "@" email).
  destruct (Str.split "@" email); [contradiction|]. simpl.
  apply lower_idem.
Qed.

Lemma category_of_lower email : category_of (Str.lower email) = category_of email.
Proof. unfold category_of. now rewrite local_part_lower. Qed.

Lemma concat_nonempty_length (L : list (Category * list string)) :
  length (concat (List.map snd (List.filter (fun '(_, v) => nonempty v) L)))
  = length (concat (List.map snd L)).
Proof.
  induction L as [|[c v] L IH]; simpl; [reflexivity|].
  destruct v; simpl; [exact IH|]. rewrite !length_app. now rewrite IH.
Qed.

(** The dictionary after the loop, read off the nine categories. *)
Lemma categorize_emails_closed emails :
  categorize_emails emails
  = List.filter (fun '(_, v) => nonempty v)
      (List.map (fun c => (c, List.filter
                                (fun e => bool_decide (category_of e = c))
                                emails))
                [executive; sales; support; hr; general; technical;
                 marketing; finance; personal]).
Proof. unfold categorize_emails. now rewrite categorize_loop. Qed.

Lemma length_cons_if {A : Type} (b : bool) (x : A) l :
  length (if b then x :: l else l) = (if b then 1 else 0) + length l.
Proof. now destruct b. Qed.

Lemma categories_cover emails :
  length (concat (List.map snd
     (List.map (fun c => (c, List.filter
                               (fun e => bool_decide (category_of e = c))
                               emails))
               [executive; sales; support; hr; general; technical;
                marketing; finance; personal])))
  = length emails.
Proof.
  induction emails as [|e emails IH]; [reflexivity|].
  cbn [List.map snd concat] in *. rewrite !length_app in *.
  cbn [List.filter]. rewrite !length_cons_if.
  assert (Hone :
    (if bool_decide (category_of e = executive) then 1 else 0)
    + (if bool_decide (category_of e = sales) then 1 else 0)
    + (if bool_decide (category_of e = support) then 1 else 0)
    + (if bool_decide (category_of e = hr) then 1 else 0)
    + (if bool_decide (category_of e = general) then 1 else 0)
    + (if bool_decide (category_of e = technical) then 1 else 0)
    + (if bool_decide (category_of e = marketing) then 1 else 0)
    + (if bool_decide (category_of e = finance) then 1 else 0)
    + (if bool_decide (category_of e = personal) then 1 else 0) = 1)
    by (destruct (category_of e); reflexivity).
  cbn [length] in *. lia.
Qed.

Lemma categorize_emails_count emails :
  length (concat (List.map snd (categorize_emails emails))) = length emails.
Proof.
  rewrite categorize_emails_closed, concat_nonempty_length.
  apply categories_cover.
Qed.

(** X17. [categorize_emails] files every e-mail of its input under exactly
    one category: the lists it returns are, in the fixed order of the
    categories, the input filtered by category, with the input's order and
    repetitions; none is empty; together they hold as many entries as the
    input.  The category of an e-mail does not depend on its letter
    case. *)
Theorem categorize_partition (emails : list string) :
  categorize_emails emails
  = List.filter (fun '(_, v) => nonempty v)
      (List.map (fun c => (c, List.filter
                                (fun e => bool_decide (category_of e = c))
                                emails))
                [executive; sales; support; hr; general; technical;
                 marketing; finance; personal]) /\
  length (concat (List.map snd (categorize_emails emails))) = length emails /\
  (forall e c, (exists l, In (c, l) (categorize_emails emails) /\ In e l) <->
               In e emails /\ category_of e = c) /\
  (forall e, category_of (Str.lower e) = category_of e).
Proof.
  split; [apply categorize_emails_closed|].
  split; [apply categorize_emails_count|].
  split; [intros e c; apply categorize_emails_elem|apply category_of_lower].
Qed.

Lemma trimmed_cells_skip_blank blank line :
  Str.strip blank = EmptyString -> Str.contains_char "|" blank = false ->
  trimmed_cells (blank +:+ String "|" line) = trimmed_cells line.
Proof.
  intros Hb Hsep. unfold trimmed_cells.
  rewrite split_at_first by assumption. simpl. now rewrite Hb.
Qed.

Lemma fit_head n c r :
  0 < n -> exists r', fit n (c :: r) = c :: r'.
Proof.
  intros Hn. destruct (Nat.le_gt_cases (length (c :: r)) n) as [H|H].
  - rewrite fit_short by exact H. simpl. eauto.
  - rewrite fit_long by lia. destruct n; [lia|]. simpl. eauto.
Qed.

(** X18. A parsed record never starts with an empty cell: blank cells at
    the start of a row are dropped before the row is fitted to the header,
    so a row written with an empty first column is read as the same row
    without it, its cells moved one column to the left. *)
Theorem leading_blank_cells_vanish :
  (forall blank line,
     Str.strip blank = EmptyString -> Str.contains_char "|" blank = false ->
     trimmed_cells (blank +:+ String "|" line) = trimmed_cells line) /\
  (forall text df row,
     parse_markdown_table text = Some df -> In row (data df) ->
     exists cell cells, row = cell :: cells /\ cell <> EmptyString).
Proof.
  split; [exact trimmed_cells_skip_blank|].
  intros text df row. rewrite parse_markdown_table_parsed. unfold parsed.
  destruct (table_lines text) as [|first [|line lines]]; try discriminate.
  destruct (header_cells first) as [|h hs] eqn:Hh; [discriminate|].
  cbn [nonempty andb].
  destruct (kept_rows _ _) as [|row0 rows] eqn:Hr; [discriminate|].
  intros [= <-]. cbn [data]. rewrite <- Hr.
  rewrite kept_rows_alt by (simpl; lia).
  intros (l & <- & [_ Hl]%filter_In)%in_map_iff.
  destruct (trimmed_cells_cases l) as [E|(c & r & E & Hc)];
    rewrite E in *; [discriminate|].
  destruct (fit_head (length (h :: hs)) c r) as [r' ->]; [simpl; lia|].
  exists c, r'. split; [reflexivity|]. intros ->. discriminate.
Qed.

Lemma leading_blank_cells_vanish_witness :
  trimmed_cells ("  " +:+ String "|" " General Contact | info@acme.co |")
  = trimmed_cells " General Contact | info@acme.co |".
Proof.
  apply (proj1 leading_blank_cells_vanish); reflexivity.
Defined.

End MoreFacts.

Section ExportCount.

Import Categorizer Main.

Lemma flat_map_rows_length r (L : list (Category * list string)) :
  length (flat_map (fun '(category, emails) =>
                      List.map (email_row r category) emails) L)
  = length (concat (List.map snd L)).
Proof.
  induction L as [|[c l] L IH]; simpl; [reflexivity|].
  now rewrite !length_app, length_map, IH.
Qed.

(** X19. The export holds exactly one record for each collected e-mail and
    one for each collected phone: as many records as there are contacts. *)
Theorem export_one_record_per_contact (r : Results) :
  length (export_data r) = size (all_emails r) + size (all_phones r).
Proof.
  unfold export_data, email_rows, phone_rows, size, set_size. simpl.
  rewrite length_app. f_equal.
  - destruct (elements (all_emails r)) as [|e es] eqn:E; [reflexivity|].
    cbn [nonempty]. rewrite <- E, flat_map_rows_length.
    apply categorize_emails_count.
  - destruct (elements (all_phones r)) as [|p ps] eqn:E; [reflexivity|].
    cbn [nonempty]. now rewrite length_map.
Qed.

End ExportCount.
